(** * generate_acts.py: activation capture and preference scoring

    A shallow embedding of [src/generate_acts.py].  The Python program
    mutates a model object (forward hooks are registered on and removed
    from its transformer blocks), mutates [Hook] objects (their [out]
    slot) and raises exceptions; the embedding threads an explicit
    [World] through a state-and-exception monad in which a raised
    exception keeps the state reached so far.

    The entries of a tensor are values of an unspecified type of
    floating-point numbers and a hidden-state vector is a value of an
    unspecified type of fixed-width vectors; the operations of the
    tensor library that compute with the entries (softmax of a row, the
    sum of the entries, the comparison of two scores) belong to the
    runtime the program is given.  Only the [dtype] tag of a tensor is
    tracked. *)

From Stdlib Require Import Ascii.
From stdpp Require Import gmap strings pretty list fin_maps.

(** ** Python values, exceptions and sequence primitives *)

Module Py.

Inductive PyExc : Type :=
| ValueError | TypeError | IndexError | KeyError | RuntimeError.

Inductive result (A : Type) : Type :=
| Ok (a : A)
| Raise (e : PyExc).
Global Arguments Ok {A} a.
Global Arguments Raise {A} e.

Definition rbind {A B} (r : result A) (k : A → result B) : result B :=
  match r with Ok a => k a | Raise e => Raise e end.

Definition is_ok {A} (r : result A) : bool :=
  match r with Ok _ => true | Raise _ => false end.

(** A value used as a subscript: the program subscripts lists with
    integers and, in [evaluate], with a string. *)
Inductive PyVal : Type :=
| PInt (z : Z)
| PStr (s : string).

(** Position of subscript [i] in a sequence of length [n]: negative
    subscripts count from the end, anything outside [-n, n) is an
    [IndexError]. *)
Definition py_index (n : nat) (i : Z) : result nat :=
  if decide (0 ≤ i < Z.of_nat n)%Z then Ok (Z.to_nat i)
  else if decide (- Z.of_nat n ≤ i < 0)%Z then Ok (Z.to_nat (Z.of_nat n + i))
  else Raise IndexError.

(** [l[i]] on a list. *)
Definition list_getitem {A} (l : list A) (i : PyVal) : result A :=
  match i with
  | PInt z =>
      rbind (py_index (length l) z)
            (λ k, match l !! k with Some x => Ok x | None => Raise IndexError end)
  | PStr _ => Raise TypeError
  end.

(** [l[i] = x] on a list. *)
Definition list_setitem {A} (l : list A) (i : PyVal) (x : A) : result (list A) :=
  match i with
  | PInt z => rbind (py_index (length l) z) (λ k, Ok (<[k := x]> l))
  | PStr _ => Raise TypeError
  end.

(** The one-character strings a [str] yields when iterated. *)
Fixpoint str_iter (s : string) : list string :=
  match s with
  | EmptyString => []
  | String c s' => String c EmptyString :: str_iter s'
  end.

(** [a, b = s] for a string [s]: exactly two items or [ValueError]. *)
Definition unpack2 (s : string) : result (string * string) :=
  match str_iter s with
  | [a; b] => Ok (a, b)
  | _ => Raise ValueError
  end.

(** [range(start, stop, step)] for a positive step, on naturals. *)
Definition py_range (start stop step : nat) : list nat :=
  if decide (stop ≤ start) then []
  else (λ k, start + k * step) <$> seq 0 ((stop - start - 1) `div` step + 1).

(** [l[i:j]] for non-negative bounds: both are clamped to [len(l)]. *)
Definition py_slice {A} (l : list A) (i j : nat) : list A :=
  take (j - i) (drop i l).

End Py.
Export Py.

(** ** Tensors *)

Inductive DType : Type := Float16 | Float32.

(** Primary output of a transformer block, shape (batch, position, hidden). *)
Record Hidden (Vec : Type) : Type := mkHidden {
  h_dtype : DType;
  h_data : list (list Vec)
}.
Arguments mkHidden {Vec} _ _.
Arguments h_dtype {Vec} _.
Arguments h_data {Vec} _.

(** One activation record: a hidden-size vector. *)
Record Act (Vec : Type) : Type := mkAct {
  a_dtype : DType;
  a_vec : Vec
}.
Arguments mkAct {Vec} _ _.
Arguments a_dtype {Vec} _.
Arguments a_vec {Vec} _.

(** A stacked tensor, shape (rows, hidden). *)
Record Stacked (Vec : Type) : Type := mkStacked {
  s_dtype : DType;
  s_rows : list Vec
}.
Arguments mkStacked {Vec} _ _.
Arguments s_dtype {Vec} _.
Arguments s_rows {Vec} _.

(** [h[0, -1]]: first batch entry, last position. *)
Definition last_token {Vec} (h : Hidden Vec) : result (Act Vec) :=
  match h_data h with
  | [] => Raise IndexError
  | positions :: _ =>
      match last positions with
      | Some v => Ok (mkAct (h_dtype h) v)
      | None => Raise IndexError
      end
  end.

(** [t.stack(acts)]: refuses an empty list. *)
Definition t_stack {Vec} (acts : list (Act Vec)) : result (Stacked Vec) :=
  match acts with
  | [] => Raise RuntimeError
  | a :: _ => Ok (mkStacked (a_dtype a) (a_vec <$> acts))
  end.

(** [.float()]: the dtype becomes float32, the entries stay. *)
Definition to_float {Vec} (t : Stacked Vec) : Stacked Vec :=
  mkStacked Float32 (s_rows t).

(** Logits, shape (batch, position, vocabulary), with entries in [F]. *)
Abbreviation Logits F := (list (list (list F))).

(** ** The world: model object, [Hook] objects, forward passes *)

(** An entry of a block's forward-hook table: the handle id it was
    registered under, the block, and the [Hook] object. *)
Record HookEntry : Type := mkEntry {
  he_id : nat;
  he_block : nat;
  he_hook : nat
}.

Record World (Tokens Vec : Type) : Type := mkWorld {
  fwd_hooks : list HookEntry;                   (* in registration order *)
  next_id : nat;                                (* handle id counter *)
  hook_out : gmap nat (option (Hidden Vec));    (* [out] of every Hook object *)
  next_hook : nat;                              (* next fresh Hook object *)
  forward_log : list Tokens                     (* inputs the model was run on *)
}.
Arguments mkWorld {Tokens Vec} _ _ _ _ _.
Arguments fwd_hooks {Tokens Vec} _.
Arguments next_id {Tokens Vec} _.
Arguments hook_out {Tokens Vec} _.
Arguments next_hook {Tokens Vec} _.
Arguments forward_log {Tokens Vec} _.

Definition forward_calls {Tokens Vec} (w : World Tokens Vec) : nat :=
  length (forward_log w).

Definition hook_count {Tokens Vec} (w : World Tokens Vec) : nat :=
  length (fwd_hooks w).

Definition empty_world {Tokens Vec} : World Tokens Vec :=
  mkWorld [] 0 ∅ 0 [].

(** Handle ids and Hook objects in use are below the two counters. *)
Definition wf_world {Tokens Vec} (w : World Tokens Vec) : Prop :=
  Forall (λ e, he_id e < next_id w ∧ he_hook e < next_hook w) (fwd_hooks w).

(** State and exceptions. *)
Definition M (Tokens Vec A : Type) : Type :=
  World Tokens Vec → World Tokens Vec * result A.

Definition ret {Tokens Vec A} (a : A) : M Tokens Vec A := λ w, (w, Ok a).

Definition bind {Tokens Vec A B}
    (c : M Tokens Vec A) (k : A → M Tokens Vec B) : M Tokens Vec B :=
  λ w, match c w with
       | (w', Ok a) => k a w'
       | (w', Raise e) => (w', Raise e)
       end.

Definition lift {Tokens Vec A} (r : result A) : M Tokens Vec A := λ w, (w, r).

Notation "x <~ c ; k" := (bind c (λ x, k))
  (at level 20, c at level 100, k at level 200, only parsing).
Notation "' p <~ c ; k" := (bind c (λ x, match x with p => k end))
  (at level 20, p pattern, c at level 100, k at level 200, only parsing).

Fixpoint for_each {Tokens Vec A} (l : list A) (body : A → M Tokens Vec unit)
    : M Tokens Vec unit :=
  match l with
  | [] => ret tt
  | x :: rest => _ <~ body x; for_each rest body
  end.

Fixpoint map_m {Tokens Vec A B} (f : A → M Tokens Vec B) (l : list A)
    : M Tokens Vec (list B) :=
  match l with
  | [] => ret []
  | x :: rest => y <~ f x; ys <~ map_m f rest; ret (y :: ys)
  end.

(** An item of [labels]: the initial integer 0 or a comparison outcome. *)
Inductive Label : Type :=
| LInt (z : Z)
| LBool (b : bool).

(** ** A three-block toy runtime used to run the program on examples *)

Module Toy.

(** The tokenizer fails on one text and otherwise yields the text itself. *)
Definition encode (s : string) : result string :=
  if decide (s = "boom") then Raise ValueError else Ok s.

(** Block [k] on input [t]: two positions, in half precision. *)
Definition block_fwd (k : nat) (t : string) : result (Hidden nat * unit) :=
  Ok (mkHidden Float16 [[k; k + String.length t]], tt).

(** One position over a two-word vocabulary; the entries are naturals. *)
Definition lm_head (t : string) : result (Logits nat) :=
  Ok [[[0; 1]]].

(** The tensor operations on natural entries: a row is scaled to sum
    to 100, entries are added up, scores are compared. *)
Definition softmax_row (row : list nat) : list nat :=
  (λ x, 100 * x `div` sum_list row) <$> row.

Definition float_sum (entries : list nat) : nat := sum_list entries.

Definition float_gt (a b : nat) : bool := bool_decide (b < a).

Definition num_layers : nat := 3.

Definition world0 : World string nat := empty_world.

(** The statements "A is", "B is", ... *)
Definition dataset (n : nat) : list string :=
  (λ k, String (Ascii.ascii_of_nat (65 + k)) " is") <$> seq 0 n.

End Toy.

(** A head whose logits have one position per character of the text. *)
Module PerChar.

Definition lm_head (t : string) : result (Logits nat) :=
  Ok [replicate (String.length t) [0; 1]].

End PerChar.

(** A model on which an earlier batch left one hook. *)
Definition world_with_leftover : World string nat :=
  mkWorld [mkEntry 0 0 0] 1 {[ 0 := None ]} 1 [].

(** ** The program *)

Section GenerateActs.

(** The pretrained-model runtime: token tensors, hidden-size vectors,
    the auxiliary block output (cached state), the floating-point
    entries of the logits, the number of transformer blocks, the
    tokenizer, each block's forward computation on an input and the
    final logits.  Any of the three computations may raise. *)
Context {Tokens Vec Aux F : Type}.
Context (num_layers : nat).
Context (encode : string → result Tokens).
Context (block_fwd : nat → Tokens → result (Hidden Vec * Aux)).
Context (lm_head : Tokens → result (Logits F)).

(** The tensor library on floating-point entries: the softmax of one
    vocabulary row, the sum of the entries of a tensor (given in
    row-major order) and the comparison [a > b] of two scores.  Their
    rounding and order of reduction are the library's. *)
Context (softmax_row : list F → list F).
Context (float_sum : list F → F).
Context (float_gt : F → F → bool).

Local Abbreviation World := (World Tokens Vec).
Local Abbreviation M := (M Tokens Vec).

(** *** class Hook *)

(** [Hook()]: a fresh object whose [out] is [None]. *)
Definition Hook_init : M nat :=
  λ w, (mkWorld (fwd_hooks w) (next_id w)
                (<[next_hook w := None]> (hook_out w)) (S (next_hook w))
                (forward_log w),
        Ok (next_hook w)).

(** [Hook.__call__]: [self.out, _ = module_outputs].  The output of a
    block is the pair the assignment takes apart: the hidden states and
    the auxiliary output (the cached key/value state). *)
Definition Hook_call (self : nat) (module_outputs : Hidden Vec * Aux) : M unit :=
  λ w, let '(out, _) := module_outputs in
       (mkWorld (fwd_hooks w) (next_id w)
                (<[self := Some out]> (hook_out w)) (next_hook w)
                (forward_log w),
        Ok tt).

(** *** The model object *)

(** [model.model.layers[layer]]. *)
Definition layers_getitem (layer : Z) : result nat := py_index num_layers layer.

(** [block.register_forward_hook(hook)]: a new table entry under a
    fresh handle id; the handle is returned. *)
Definition register_forward_hook (block hook : nat) : M nat :=
  λ w, (mkWorld (fwd_hooks w ++ [mkEntry (next_id w) block hook]) (S (next_id w))
                (hook_out w) (next_hook w) (forward_log w),
        Ok (next_id w)).

(** [handle.remove()]: the entry of that id, if any, leaves the table. *)
Definition handle_remove (handle : nat) : M unit :=
  λ w, (mkWorld (filter (λ e, he_id e ≠ handle) (fwd_hooks w)) (next_id w)
                (hook_out w) (next_hook w) (forward_log w),
        Ok tt).

(** The hooks of [block], called in registration order on its output. *)
Definition fire (block : nat) (out : Hidden Vec * Aux) : M unit :=
  λ w, for_each (fwd_hooks w)
         (λ e, if decide (he_block e = block) then Hook_call (he_hook e) out
               else ret tt) w.

Definition log_forward (input_ids : Tokens) : M unit :=
  λ w, (mkWorld (fwd_hooks w) (next_id w) (hook_out w) (next_hook w)
                (forward_log w ++ [input_ids]),
        Ok tt).

(** [model(input_ids)]: one forward pass; the blocks run in order and
    each fires its hooks, then the logits are produced. *)
Definition model_call (input_ids : Tokens) : M (Logits F) :=
  _ <~ log_forward input_ids;
  _ <~ for_each (seq 0 num_layers)
         (λ k, out <~ lift (block_fwd k input_ids); fire k out);
  lift (lm_head input_ids).

(** *** get_acts *)

(** Lines 52-56: one Hook per requested layer, registered on its block. *)
Fixpoint attach (layers : list Z) : M (list nat * list nat) :=
  match layers with
  | [] => ret ([], [])
  | layer :: rest =>
      hook <~ Hook_init;
      block <~ lift (layers_getitem layer);
      handle <~ register_forward_hook block hook;
      '(hooks, handles) <~ attach rest;
      ret (hook :: hooks, handle :: handles)
  end.

(** Line 59: [{layer : [] for layer in layers}]. *)
Definition acts_init (layers : list Z) : gmap Z (list (Act Vec)) :=
  foldl (λ acts layer, <[layer := []]> acts) ∅ layers.

(** [hook.out[0, -1]]. *)
Definition read_hook (hook : nat) : M (Act Vec) :=
  λ w, (w, match hook_out w !! hook with
           | Some (Some h) => last_token h
           | _ => Raise TypeError
           end).

(** Line 65: [acts[layer].append(hook.out[0, -1])]. *)
Definition append_act (acts : gmap Z (list (Act Vec))) (layer : Z) (hook : nat)
    : M (gmap Z (list (Act Vec))) :=
  match acts !! layer with
  | None => lift (Raise KeyError)
  | Some l => a <~ read_hook hook; ret (<[layer := l ++ [a]]> acts)
  end.

(** Lines 64-65: the loop over [zip(layers, hooks)]. *)
Fixpoint read_hooks (pairs : list (Z * nat)) (acts : gmap Z (list (Act Vec)))
    : M (gmap Z (list (Act Vec))) :=
  match pairs with
  | [] => ret acts
  | (layer, hook) :: rest =>
      acts' <~ append_act acts layer hook;
      read_hooks rest acts'
  end.

(** Lines 60-65: the loop over the statements. *)
Fixpoint collect (statements : list string) (layers : list Z) (hooks : list nat)
    (acts : gmap Z (list (Act Vec))) : M (gmap Z (list (Act Vec))) :=
  match statements with
  | [] => ret acts
  | statement :: rest =>
      input_ids <~ lift (encode statement);
      _ <~ model_call input_ids;
      acts' <~ read_hooks (zip layers hooks) acts;
      collect rest layers hooks acts'
  end.

Fixpoint stack_items (items : list (Z * list (Act Vec)))
    : result (list (Z * Stacked Vec)) :=
  match items with
  | [] => Ok []
  | (layer, act) :: rest =>
      rbind (t_stack act) (λ s,
      rbind (stack_items rest) (λ done, Ok ((layer, to_float s) :: done)))
  end.

(** Lines 67-68: every value of the dictionary is replaced by its
    stacked float tensor.  Every item that cannot be stacked raises the
    same exception, so the order in which the items are visited does
    not show in the outcome. *)
Definition stack_all (acts : gmap Z (list (Act Vec))) : result (gmap Z (Stacked Vec)) :=
  rbind (stack_items (map_to_list acts)) (λ items, Ok (list_to_map items)).

Definition get_acts (statements : list string) (layers : list Z)
    : M (gmap Z (Stacked Vec)) :=
  '(hooks, handles) <~ attach layers;
  acts <~ collect statements layers hooks (acts_init layers);
  stacked <~ lift (stack_all acts);
  _ <~ for_each handles handle_remove;
  ret stacked.

(** *** score_probs and evaluate *)

(** [logits.softmax(-1)]: softmax along the last (vocabulary) dimension. *)
Definition softmax_last (lg : Logits F) : Logits F :=
  (λ batch : list (list F), softmax_row <$> batch) <$> lg.

(** [t.sum(x)]: the sum of every entry of the tensor. *)
Definition t_sum (x : Logits F) : F := float_sum (concat (concat x)).

(** [max(l)]: [ValueError] on an empty list; else the first item is
    kept and replaced by each later item that compares greater. *)
Definition py_max (l : list F) : result F :=
  match l with
  | [] => Raise ValueError
  | x :: rest => Ok (foldl (λ m y, if float_gt y m then y else m) x rest)
  end.

Definition score_probs (statement : string) : M F :=
  input_ids <~ lift (encode statement);
  outputs <~ model_call input_ids;
  ret (t_sum (softmax_last outputs)).

(** Lines 89-96, the body of the loop for given [i] and [statement]. *)
Definition evaluate_body (i : PyVal) (statement : string)
    (correct_answers incorrect_answers : list string) (labels : list Label)
    : M (list Label) :=
  answer <~ lift (list_getitem correct_answers i);
  let correct := statement +:+ " " +:+ answer in
  correct_prob <~ score_probs correct;
  let incorrects :=
    (λ incorrect, statement +:+ " " +:+ incorrect) <$> incorrect_answers in
  incorrect_probs <~ map_m score_probs incorrects;
  top <~ lift (py_max incorrect_probs);
  let label := float_gt correct_prob top in
  lift (list_setitem labels i (LBool label)).

(** Line 88: [for i, statement in statements] unpacks every item of
    the list, a string, into the two loop variables. *)
Fixpoint evaluate_loop (items : list string)
    (correct_answers incorrect_answers : list string) (labels : list Label)
    : M (list Label) :=
  match items with
  | [] => ret labels
  | item :: rest =>
      '(i, statement) <~ lift (unpack2 item);
      labels' <~ evaluate_body (PStr i) statement
                   correct_answers incorrect_answers labels;
      evaluate_loop rest correct_answers incorrect_answers labels'
  end.

Definition evaluate (statements correct_answers incorrect_answers : list string)
    : M (list Label) :=
  evaluate_loop statements correct_answers incorrect_answers
    (replicate (length statements) (LInt 0)).

(** *** The batch driver (lines 119-134), from the integer layer list on *)

(** Lines 121-122. *)
Definition resolve_layers (layers : list Z) : list Z :=
  if decide (layers = [(-1)%Z]) then Z.of_nat <$> py_range 0 num_layers 1
  else layers.

(** The three slices of lines 128-131 at chunk offset [idx]. *)
Definition chunk_at {A B C} (statements : list A) (correct_answer : list B)
    (incorrect_answers : list C) (idx : nat) : list A * list B * list C :=
  (py_slice statements idx (idx + 25),
   py_slice correct_answer idx (idx + 25),
   py_slice incorrect_answers idx (idx + 25)).

(** One iteration of the loop of line 127; the result lists what line
    134 saves: layer, chunk offset and tensor. *)
Definition process_chunk (layers : list Z)
    (statements correct_answer incorrect_answers : list string) (idx : nat)
    : M (list (Z * nat * Stacked Vec)) :=
  let '(chunk, correct_chunk, incorrect_chunk) :=
    chunk_at statements correct_answer incorrect_answers idx in
  acts <~ get_acts chunk layers;
  _ <~ evaluate chunk correct_chunk incorrect_chunk;
  ret ((λ '(layer, act), (layer, idx, act)) <$> map_to_list acts).

Definition main_chunks (layers : list Z)
    (statements correct_answer incorrect_answers : list string)
    : M (list (Z * nat * Stacked Vec)) :=
  saved <~ map_m (process_chunk layers statements correct_answer incorrect_answers)
                 (py_range 0 (length statements) 25);
  ret (concat saved).

Definition main_dataset (arg_layers : list Z)
    (statements correct_answer incorrect_answers : list string)
    : M (list (Z * nat * Stacked Vec)) :=
  main_chunks (resolve_layers arg_layers)
              statements correct_answer incorrect_answers.

(** *** Observables used to state the properties *)

(** The block a valid layer subscript selects. *)
Definition block_of (layer : Z) : nat :=
  match layers_getitem layer with Ok b => b | Raise _ => 0 end.

(** The last-token activation of [statement] at [layer]: the output of
    that layer's block on the tokenized statement, at its last position. *)
Definition last_token_act (layer : Z) (statement : string) : result (Act Vec) :=
  rbind (encode statement) (λ input_ids,
  rbind (layers_getitem layer) (λ block,
  rbind (block_fwd block input_ids) (λ outputs, last_token outputs.1))).

(** Every block and the head compute on [input_ids] without raising. *)
Definition forward_ok (input_ids : Tokens) : bool :=
  forallb (λ k, is_ok (block_fwd k input_ids)) (seq 0 num_layers)
  && is_ok (lm_head input_ids).

(** [statement] is tokenized, the forward pass goes through and every
    block's output has a last position to read. *)
Definition runs_ok (statement : string) : bool :=
  match encode statement with
  | Ok input_ids =>
      forward_ok input_ids
      && forallb (λ k, match block_fwd k input_ids with
                       | Ok (h, _) => is_ok (last_token h)
                       | Raise _ => false
                       end) (seq 0 num_layers)
  | Raise _ => false
  end.

(** Two worlds with the same model object: hook table and counters. *)
Definition same_model (w w' : World) : Prop :=
  fwd_hooks w' = fwd_hooks w ∧ next_id w' = next_id w ∧ next_hook w' = next_hook w.

Definition keeps_model {A} (c : M A) : Prop := ∀ w, same_model w (c w).1.

(** [hook] is registered in [table], and only on [block]. *)
Definition hook_on (table : list HookEntry) (hook block : nat) : Prop :=
  (∃ e, e ∈ table ∧ he_hook e = hook ∧ he_block e = block)
  ∧ ∀ e, e ∈ table → he_hook e = hook → he_block e = block.

(** How often [layer] stands in the requested layer list. *)
Definition occurrences (layer : Z) (layers : list Z) : nat :=
  length (filter (λ l, l = layer) layers).

(** The activations [get_acts] gathers for [layer]: statement by
    statement, one per Hook registered for that layer. *)
Definition expected_acts (layers : list Z) (layer : Z) (statements : list string)
    : list (result (Act Vec)) :=
  last_token_act layer
    <$> concat (replicate (occurrences layer layers) <$> statements).

(** [text] is tokenized, the forward pass goes through and no
    vocabulary row of the logits is empty. *)
Definition scores_ok (text : string) : bool :=
  match encode text with
  | Ok input_ids =>
      forward_ok input_ids
      && match lm_head input_ids with
         | Ok lg => forallb (λ row, match row with [] => false | _ => true end)
                            (concat lg)
         | Raise _ => false
         end
  | Raise _ => false
  end.

(** A command that runs no forward pass. *)
Definition keeps_log {A} (c : M A) : Prop :=
  ∀ w, forward_log (c w).1 = forward_log w.

(** Line 123: [f"{args.output_dir}/{args.model}/{dataset}/"]. *)
Definition save_dir (output_dir model dataset : string) : string :=
  output_dir +:+ "/" +:+ model +:+ "/" +:+ dataset +:+ "/".

(** Line 134: [f"{save_dir}/layer_{layer}_{idx}.pt"]; an integer is
    formatted in decimal, with a leading minus sign when negative. *)
Definition save_path (dir : string) (layer : Z) (idx : nat) : string :=
  dir +:+ "/layer_" +:+ pretty layer +:+ "_" +:+ pretty idx +:+ ".pt".

(** Every character of [s] satisfies [p]. *)
Fixpoint string_forall (p : Ascii.ascii → bool) (s : string) : bool :=
  match s with
  | EmptyString => true
  | String c s' => p c && string_forall p s'
  end.

(** The characters of a formatted integer. *)
Definition digit_or_minus (c : Ascii.ascii) : bool :=
  bool_decide (c ∈ ["0"; "1"; "2"; "3"; "4"; "5"; "6"; "7"; "8"; "9"; "-"]%char).

(** ** Proofs *)

(** *** The monad *)

Lemma bind_ok {A B} (c : M A) (k : A → M B) w w' a :
  c w = (w', Ok a) → bind c k w = k a w'.
Proof. unfold bind. by intros ->. Qed.

Lemma bind_raise {A B} (c : M A) (k : A → M B) w w' e :
  c w = (w', Raise e) → bind c k w = (w', Raise e).
Proof. unfold bind. by intros ->. Qed.

Lemma bind_lift_ok {A B} (r : result A) (k : A → M B) w a :
  r = Ok a → bind (lift r) k w = k a w.
Proof. by intros ->. Qed.

Lemma bind_lift_raise {A B} (r : result A) (k : A → M B) w e :
  r = Raise e → bind (lift r) k w = (w, Raise e).
Proof. by intros ->. Qed.

(** Running a program one command at a time: [run_prim] for a command
    that computes, [run_ok] and [run_lift] for one whose outcome is
    known from a hypothesis. *)
Ltac run_prim := erewrite bind_ok by reflexivity.
Ltac run_ok H := erewrite bind_ok by exact H.
Ltac run_lift H := erewrite bind_lift_ok by exact H.

Lemma same_model_refl w : same_model w w.
Proof. by repeat split. Qed.

Lemma same_model_trans w1 w2 w3 :
  same_model w1 w2 → same_model w2 w3 → same_model w1 w3.
Proof. unfold same_model. intros (?&?&?) (?&?&?). split_and!; congruence. Qed.

Lemma keeps_ret {A} (a : A) : keeps_model (ret a).
Proof. intros w. apply same_model_refl. Qed.

Lemma keeps_lift {A} (r : result A) : keeps_model (lift r).
Proof. intros w. apply same_model_refl. Qed.

Lemma keeps_bind {A B} (c : M A) (k : A → M B) :
  keeps_model c → (∀ a, keeps_model (k a)) → keeps_model (bind c k).
Proof.
  intros Hc Hk w. unfold bind. specialize (Hc w).
  destruct (c w) as [w' [a|e]]; simpl in *; [|done].
  eapply same_model_trans; [done|apply Hk].
Qed.

Lemma keeps_for_each {A} (l : list A) (body : A → M unit) :
  (∀ x, keeps_model (body x)) → keeps_model (for_each l body).
Proof.
  intros Hb. induction l as [|x l IH]; simpl; [apply keeps_ret|].
  apply keeps_bind; [apply Hb|done].
Qed.

Lemma keeps_map_m {A B} (f : A → M B) (l : list A) :
  (∀ x, keeps_model (f x)) → keeps_model (map_m f l).
Proof.
  intros Hf. induction l as [|x l IH]; simpl; [apply keeps_ret|].
  apply keeps_bind; [apply Hf|]. intros y.
  apply keeps_bind; [done|]. intros ys. apply keeps_ret.
Qed.

Lemma keeps_Hook_call self outputs : keeps_model (Hook_call self outputs).
Proof. intros w. by destruct outputs. Qed.

Lemma keeps_fire block out : keeps_model (fire block out).
Proof.
  intros w. unfold fire.
  apply (keeps_for_each (fwd_hooks w)). intros e.
  case_decide; [apply keeps_Hook_call|apply keeps_ret].
Qed.

Lemma keeps_model_call input_ids : keeps_model (model_call input_ids).
Proof.
  unfold model_call. apply keeps_bind; [by intros w|].
  intros _. apply keeps_bind; [|intros; apply keeps_lift].
  apply keeps_for_each. intros k.
  apply keeps_bind; [apply keeps_lift|]. intros out. apply keeps_fire.
Qed.

Lemma keeps_read_hooks pairs acts : keeps_model (read_hooks pairs acts).
Proof.
  revert acts. induction pairs as [|[layer hook] ps IH]; intros acts; simpl.
  - apply keeps_ret.
  - apply keeps_bind; [|done]. unfold append_act.
    destruct (acts !! layer); [|apply keeps_lift].
    apply keeps_bind; [intros w; apply same_model_refl|].
    intros; apply keeps_ret.
Qed.

Lemma keeps_collect statements layers hooks acts :
  keeps_model (collect statements layers hooks acts).
Proof.
  revert acts. induction statements as [|s ss IH]; intros acts; simpl.
  - apply keeps_ret.
  - apply keeps_bind; [apply keeps_lift|]. intros ids.
    apply keeps_bind; [apply keeps_model_call|]. intros _.
    apply keeps_bind; [apply keeps_read_hooks|done].
Qed.

Lemma keeps_score_probs statement : keeps_model (score_probs statement).
Proof.
  unfold score_probs. apply keeps_bind; [apply keeps_lift|]. intros ids.
  apply keeps_bind; [apply keeps_model_call|]. intros; apply keeps_ret.
Qed.

(** *** Subscripts, ranges and slices *)

Lemma py_index_bound n i k : py_index n i = Ok k → k < n.
Proof. unfold py_index. repeat case_decide; intros [=]; lia. Qed.

Lemma py_index_ok n i :
  (- Z.of_nat n ≤ i < Z.of_nat n)%Z → ∃ k, py_index n i = Ok k.
Proof. intros Hi. unfold py_index. repeat case_decide; eauto; lia. Qed.

Lemma layers_getitem_nonneg (layer : Z) :
  (0 ≤ layer < Z.of_nat num_layers)%Z → layers_getitem layer = Ok (Z.to_nat layer).
Proof. intros Hl. unfold layers_getitem, py_index. by case_decide. Qed.

Lemma layers_getitem_last :
  0 < num_layers → layers_getitem (-1) = Ok (num_layers - 1).
Proof.
  intros Hn. unfold layers_getitem, py_index. repeat case_decide; try lia.
  f_equal. lia.
Qed.

Lemma layers_getitem_block_of (layer : Z) :
  (- Z.of_nat num_layers ≤ layer < Z.of_nat num_layers)%Z →
  layers_getitem layer = Ok (block_of layer) ∧ block_of layer < num_layers.
Proof.
  intros Hl. unfold block_of.
  destruct (py_index_ok num_layers layer Hl) as [k Hk].
  unfold layers_getitem. rewrite Hk. split; [done|]. by eapply py_index_bound.
Qed.

Lemma py_range_step_0 n step :
  0 < n → py_range 0 n step = (λ k, k * step) <$> seq 0 ((n - 1) `div` step + 1).
Proof.
  intros Hn. unfold py_range. case_decide; [lia|].
  replace (n - 0 - 1) with (n - 1) by lia. done.
Qed.

Lemma py_range_length n :
  n ≤ 25 * length (py_range 0 n 25) < n + 25.
Proof.
  destruct (decide (n = 0)) as [->|Hn]; [simpl; lia|].
  rewrite py_range_step_0 by lia.
  rewrite length_fmap, length_seq.
  pose proof (Nat.div_mod_eq (n - 1) 25) as Hd.
  pose proof (Nat.mod_upper_bound (n - 1) 25).
  lia.
Qed.

Lemma py_range_unit n : py_range 0 n 1 = seq 0 n.
Proof.
  destruct (decide (n = 0)) as [->|Hn]; [done|].
  rewrite py_range_step_0 by lia.
  rewrite Nat.div_1_r. replace (n - 1 + 1) with n by lia.
  rewrite <- (list_fmap_id (seq 0 n)) at 2.
  apply list_fmap_ext. intros; simpl; lia.
Qed.

Lemma py_range_lookup n k idx :
  py_range 0 n 25 !! k = Some idx → idx = k * 25 ∧ idx < n.
Proof.
  destruct (decide (n = 0)) as [->|Hn]; [done|].
  rewrite py_range_step_0 by lia. rewrite list_lookup_fmap.
  intros H. apply fmap_Some in H as (j & Hj & ->).
  apply lookup_seq in Hj as [-> Hlt]. split; [done|].
  pose proof (Nat.div_mod_eq (n - 1) 25).
  pose proof (Nat.mod_upper_bound (n - 1) 25). lia.
Qed.

Lemma slices_concat {A} m (l : list A) :
  length l ≤ 25 * m →
  concat ((λ k, py_slice l (k * 25) (k * 25 + 25)) <$> seq 0 m) = l.
Proof.
  revert l. induction m as [|m IH]; intros l Hl.
  - destruct l; simpl in *; [done|lia].
  - rewrite <- cons_seq, <- fmap_S_seq. rewrite fmap_cons, <- list_fmap_compose.
    rewrite concat_cons.
    transitivity (take 25 l ++ drop 25 l); [|apply take_drop].
    apply (f_equal2 app); [unfold py_slice; simpl; by rewrite drop_0|].
    etransitivity; [|apply (IH (drop 25 l)); rewrite length_drop; lia].
    f_equal. apply list_fmap_ext. intros _ k _. simpl. unfold py_slice.
    rewrite drop_drop.
    replace (S k * 25 + 25 - S k * 25) with (k * 25 + 25 - k * 25) by lia.
    replace (25 + k * 25) with (S k * 25) by lia. done.
Qed.

Lemma chunks_concat {A} (l : list A) n :
  length l = n →
  concat ((λ idx, py_slice l idx (idx + 25)) <$> py_range 0 n 25) = l.
Proof.
  intros <-. destruct (decide (length l = 0)) as [H0|Hn].
  - rewrite H0. destruct l; [done|discriminate].
  - rewrite py_range_step_0 by lia. rewrite <- list_fmap_compose.
    apply slices_concat.
    pose proof (Nat.div_mod_eq (length l - 1) 25).
    pose proof (Nat.mod_upper_bound (length l - 1) 25). lia.
Qed.

(** *** Attaching and removing hooks *)

Lemma attach_ok (layers : list Z) w :
  Forall (λ layer, (- Z.of_nat num_layers ≤ layer < Z.of_nat num_layers)%Z) layers →
  ∃ w', attach layers w
        = (w', Ok (seq (next_hook w) (length layers), seq (next_id w) (length layers)))
    ∧ fwd_hooks w'
      = fwd_hooks w
        ++ imap (λ j layer, mkEntry (next_id w + j) (block_of layer) (next_hook w + j)) layers
    ∧ next_id w' = next_id w + length layers
    ∧ next_hook w' = next_hook w + length layers
    ∧ forward_log w' = forward_log w.
Proof.
  intros Hv. revert w. induction Hv as [|layer layers Hl Hv IH]; intros w.
  - eexists. simpl. split; [done|]. rewrite app_nil_r. split_and!; done || lia.
  - destruct (layers_getitem_block_of layer Hl) as [Hb _].
    simpl attach.
    run_prim.
    run_lift Hb.
    run_prim.
    match goal with |- context [bind (attach layers) _ ?w1] =>
      destruct (IH w1) as (w' & Hrun & Hh & Hi & Hk & Hlog) end.
    simpl in *. exists w'. run_ok Hrun. simpl.
    split; [done|]. rewrite Hh, Hi, Hk, Hlog, <- app_assoc. simpl.
    split_and!; try done; try lia.
    do 2 f_equal; [f_equal; lia|].
    apply imap_ext. intros j x _. simpl. f_equal; lia.
Qed.

Lemma filter_all {A} (P : A → Prop) `{∀ x, Decision (P x)} (l : list A) :
  Forall P l → filter P l = l.
Proof.
  induction 1 as [|x l Hx Hl IH]; [done|].
  rewrite filter_cons_True by done. by f_equal.
Qed.

Lemma filter_none {A} (P : A → Prop) `{∀ x, Decision (P x)} (l : list A) :
  Forall (λ x, ¬ P x) l → filter P l = [].
Proof.
  induction 1 as [|x l Hx Hl IH]; [done|].
  by rewrite filter_cons_False.
Qed.

Lemma remove_all_ok (handles : list nat) w :
  ∃ w', for_each handles handle_remove w = (w', Ok tt)
    ∧ fwd_hooks w' = filter (λ e, he_id e ∉ handles) (fwd_hooks w)
    ∧ next_id w' = next_id w ∧ next_hook w' = next_hook w
    ∧ hook_out w' = hook_out w ∧ forward_log w' = forward_log w.
Proof.
  revert w. induction handles as [|h hs IH]; intros w.
  - exists w. simpl. split; [done|]. split_and!; try done.
    symmetry. apply filter_all, Forall_forall. intros e _. apply not_elem_of_nil.
  - simpl. run_prim.
    match goal with |- context [for_each hs handle_remove ?w1 = _] =>
      destruct (IH w1) as (w' & Hrun & Hh & ? & ? & ? & ?) end.
    simpl in *. exists w'. split; [done|]. split_and!; try done.
    rewrite Hh, list_filter_filter. apply list_filter_iff.
    intros e. rewrite not_elem_of_cons. tauto.
Qed.

Lemma remove_attached (old : list HookEntry) (layers : list Z) n0 h0 :
  Forall (λ e, he_id e < n0) old →
  filter (λ e, he_id e ∉ seq n0 (length layers))
         (old ++ imap (λ j layer, mkEntry (n0 + j) (block_of layer) (h0 + j)) layers)
  = old.
Proof.
  intros Hold. rewrite filter_app.
  rewrite filter_all, filter_none; [apply app_nil_r| |].
  - apply Forall_forall. intros e He Hn. apply Hn.
    apply elem_of_lookup_imap in He as (j & layer & -> & Hj). simpl.
    apply lookup_lt_Some in Hj. rewrite elem_of_seq. lia.
  - eapply Forall_impl; [exact Hold|]. intros e He. simpl in *.
    rewrite elem_of_seq. lia.
Qed.

(** *** The forward pass *)

Lemma is_ok_Ok {A} (r : result A) : is_ok r → ∃ a, r = Ok a.
Proof. destruct r; [eauto|done]. Qed.

Lemma fire_loop (table : list HookEntry) block (out : Hidden Vec * Aux) w :
  ∃ w', for_each table
          (λ e, if decide (he_block e = block) then Hook_call (he_hook e) out
                else ret tt) w = (w', Ok tt)
    ∧ same_model w w' ∧ forward_log w' = forward_log w
    ∧ ∀ hook, hook_out w' !! hook
        = if decide (Exists (λ e, he_hook e = hook ∧ he_block e = block) table)
          then Some (Some out.1) else hook_out w !! hook.
Proof.
  revert w. induction table as [|e table IH]; intros w.
  - exists w. split; [done|]. split; [apply same_model_refl|]. split; [done|].
    intros hook. rewrite decide_False; [done|]. by intros ?%Exists_nil.
  - simpl for_each. destruct out as [h aux].
    destruct (decide (he_block e = block)) as [Hb|Hb].
    + run_prim.
      match goal with |- context [for_each table _ ?w1 = _] =>
        destruct (IH w1) as (w' & Hrun & Hm & Hlog & Hout) end.
      exists w'. split; [done|]. split; [exact Hm|]. split; [exact Hlog|].
      intros hook. rewrite Hout. simpl.
      destruct (decide (Exists _ table)) as [Ht|Ht].
      * rewrite decide_True; [done|]. by apply Exists_cons_tl.
      * destruct (decide (he_hook e = hook)) as [Hh|Hh].
        -- rewrite decide_True by (by apply Exists_cons_hd).
           rewrite <- Hh. apply lookup_insert_eq.
        -- rewrite decide_False by (rewrite Exists_cons; tauto).
           by rewrite lookup_insert_ne.
    + run_prim.
      destruct (IH w) as (w' & Hrun & Hm & Hlog & Hout).
      exists w'. split; [done|]. split; [exact Hm|]. split; [exact Hlog|].
      intros hook. rewrite Hout.
      apply decide_ext. rewrite Exists_cons. tauto.
Qed.

Lemma fire_ok block (out : Hidden Vec * Aux) w :
  ∃ w', fire block out w = (w', Ok tt)
    ∧ same_model w w' ∧ forward_log w' = forward_log w
    ∧ ∀ hook b, hook_on (fwd_hooks w) hook b →
        (b = block → hook_out w' !! hook = Some (Some out.1))
        ∧ (b ≠ block → hook_out w' !! hook = hook_out w !! hook).
Proof.
  unfold fire.
  destruct (fire_loop (fwd_hooks w) block out w) as (w' & Hrun & Hm & Hlog & Hout).
  exists w'. split; [done|]. split; [done|]. split; [done|].
  intros hook b [(e & He & Hh & Hb) Honly]. rewrite Hout. split; intros Hblock.
  - rewrite decide_True; [done|]. apply Exists_exists. exists e. by subst.
  - rewrite decide_False; [done|]. rewrite Exists_exists.
    intros (e' & He' & Hh' & Hb'). apply Honly in Hh'; [congruence|done].
Qed.

Lemma hook_on_same (w w' : World) hook block :
  same_model w w' → hook_on (fwd_hooks w) hook block → hook_on (fwd_hooks w') hook block.
Proof. by intros (-> & _). Qed.

Lemma blocks_loop (ks : list nat) (input_ids : Tokens) w :
  Forall (λ k, is_ok (block_fwd k input_ids)) ks →
  ∃ w', for_each ks (λ k, out <~ lift (block_fwd k input_ids); fire k out) w
        = (w', Ok tt)
    ∧ same_model w w' ∧ forward_log w' = forward_log w
    ∧ ∀ hook block, hook_on (fwd_hooks w) hook block →
        (block ∉ ks → hook_out w' !! hook = hook_out w !! hook)
        ∧ (block ∈ ks → NoDup ks →
           ∃ h aux, block_fwd block input_ids = Ok (h, aux)
                    ∧ hook_out w' !! hook = Some (Some h)).
Proof.
  intros Hks. revert w. induction Hks as [|k ks Hk Hks IH]; intros w.
  - exists w. split; [done|]. split; [apply same_model_refl|]. split; [done|].
    intros hook block _. split; [done|]. by intros ?%elem_of_nil.
  - apply is_ok_Ok in Hk as [[h aux] Hk]. simpl for_each.
    destruct (fire_ok k (h, aux) w) as (w1 & Hfire & Hm1 & Hlog1 & Hout1).
    erewrite bind_ok; [|run_lift Hk; exact Hfire].
    destruct (IH w1) as (w' & Hrun & Hm & Hlog & Hout).
    exists w'. split; [done|].
    split; [by eapply same_model_trans|]. split; [congruence|].
    intros hook block Hon.
    destruct (Hout1 hook block Hon) as [Hhit Hmiss].
    destruct (Hout hook block (hook_on_same _ _ _ _ Hm1 Hon)) as [Hrest Hlater].
    split.
    + intros [Hne Hnin]%not_elem_of_cons. rewrite Hrest by done. by apply Hmiss.
    + intros Hin [Hk_nin Hnd]%NoDup_cons.
      destruct (decide (block = k)) as [->|Hne].
      * exists h, aux. split; [done|]. rewrite Hrest by done. by apply Hhit.
      * apply elem_of_cons in Hin as [?|Hin]; [done|]. by apply Hlater.
Qed.

Lemma model_call_ok (input_ids : Tokens) w :
  forward_ok input_ids →
  ∃ w' lg, model_call input_ids w = (w', Ok lg)
    ∧ lm_head input_ids = Ok lg
    ∧ same_model w w' ∧ forward_log w' = forward_log w ++ [input_ids]
    ∧ ∀ hook block, hook_on (fwd_hooks w) hook block → block < num_layers →
        ∃ h aux, block_fwd block input_ids = Ok (h, aux)
                 ∧ hook_out w' !! hook = Some (Some h).
Proof.
  intros [Hblocks [lg Hlg]%is_ok_Ok]%andb_True.
  apply forallb_True in Hblocks.
  unfold model_call. run_prim.
  match goal with |- context [bind (for_each _ _) _ ?w1] =>
    destruct (blocks_loop (seq 0 num_layers) input_ids w1 Hblocks)
      as (w' & Hrun & Hm & Hlog & Hout) end.
  exists w', lg. run_ok Hrun.
  split; [by rewrite Hlg|]. split; [done|]. split; [exact Hm|].
  split; [by rewrite Hlog|].
  intros hook block Hon Hlt. apply (Hout hook block Hon).
  - apply elem_of_seq. lia.
  - apply NoDup_seq.
Qed.

(** *** Reading the hooks and collecting *)

Lemma acts_init_lookup (layers : list Z) (layer : Z) :
  acts_init layers !! layer = if decide (layer ∈ layers) then Some [] else None.
Proof.
  unfold acts_init.
  assert (∀ m : gmap Z (list (Act Vec)),
    foldl (λ acts l, <[l := []]> acts) m layers !! layer
    = if decide (layer ∈ layers) then Some [] else m !! layer) as Hgen.
  { induction layers as [|l ls IH]; intros m; cbn [foldl].
    - rewrite decide_False; [done|]. apply not_elem_of_nil.
    - rewrite IH. destruct (decide (layer ∈ ls)) as [Hin|Hnin].
      + rewrite decide_True; [done|]. by apply elem_of_cons; right.
      + destruct (decide (layer = l)) as [->|Hne].
        * rewrite decide_True by (apply elem_of_cons; by left).
          apply lookup_insert_eq.
        * rewrite decide_False by (rewrite elem_of_cons; tauto).
          by rewrite lookup_insert_ne. }
  rewrite Hgen. by rewrite lookup_empty.
Qed.

Lemma acts_init_dom (layers : list Z) :
  dom (acts_init layers) = list_to_set layers.
Proof.
  apply set_eq. intros layer.
  rewrite elem_of_dom, acts_init_lookup, elem_of_list_to_set.
  case_decide; split; intros H'; try done; by destruct H'.
Qed.

Lemma read_hooks_ok (ps : list (Z * nat)) (acts : gmap Z (list (Act Vec))) w
    (f : Z → result (Act Vec)) :
  NoDup ps.*1 →
  (∀ layer hook, (layer, hook) ∈ ps →
     is_Some (acts !! layer) ∧ ∃ a, f layer = Ok a ∧ read_hook hook w = (w, Ok a)) →
  ∃ acts', read_hooks ps acts w = (w, Ok acts')
    ∧ dom acts' = dom acts
    ∧ (∀ layer, layer ∈ ps.*1 →
         ∃ l a, acts !! layer = Some l ∧ f layer = Ok a
                ∧ acts' !! layer = Some (l ++ [a]))
    ∧ (∀ layer, layer ∉ ps.*1 → acts' !! layer = acts !! layer).
Proof.
  revert acts. induction ps as [|[layer hook] ps IH]; intros acts Hnd Hps.
  - exists acts. split; [done|]. split; [done|]. split; [|done].
    by intros layer ?%elem_of_nil.
  - rewrite fmap_cons in Hnd. apply NoDup_cons in Hnd as [Hnin Hnd].
    destruct (Hps layer hook) as [[l Hl] (a & Hf & Hread)]; [by left|].
    simpl read_hooks. unfold append_act. rewrite Hl.
    erewrite bind_ok; [|run_ok Hread; reflexivity].
    destruct (IH (<[layer := l ++ [a]]> acts) Hnd) as (acts' & Hrun & Hdom & Hin & Hout).
    { intros layer' hook' Hmem. destruct (Hps layer' hook') as [Hs Ha]; [by right|].
      split; [|done]. rewrite lookup_insert_is_Some.
      destruct (decide (layer = layer')); [by left|by right]. }
    exists acts'. split; [done|]. split.
    { rewrite Hdom, dom_insert_L. apply elem_of_dom_2 in Hl.
      apply set_eq. intros x. rewrite elem_of_union, elem_of_singleton.
      split; [by intros [->|?]|by right]. }
    split.
    + intros layer' [->|Hmem]%elem_of_cons.
      * exists l, a. split; [done|]. split; [done|].
        rewrite Hout by done. apply lookup_insert_eq.
      * destruct (Hin layer' Hmem) as (l' & a' & Hl' & Hf' & Hacts').
        exists l', a'. split; [|done].
        rewrite lookup_insert_ne in Hl'; [done|]. by intros ->.
    + intros layer' [Hne Hnin']%not_elem_of_cons.
      rewrite Hout by done. by rewrite lookup_insert_ne.
Qed.

Lemma last_token_act_eq (layer : Z) (statement : string) input_ids block h aux :
  encode statement = Ok input_ids →
  layers_getitem layer = Ok block →
  block_fwd block input_ids = Ok (h, aux) →
  last_token_act layer statement = last_token h.
Proof.
  intros He Hl Hb. unfold last_token_act.
  rewrite He. simpl. rewrite Hl. simpl. by rewrite Hb.
Qed.

Lemma collect_ok (statements : list string) (layers : list Z) (hooks : list nat)
    (acts : gmap Z (list (Act Vec))) w (seen : list string) :
  NoDup layers → length hooks = length layers →
  Forall (λ layer, (- Z.of_nat num_layers ≤ layer < Z.of_nat num_layers)%Z) layers →
  (∀ j layer hook, layers !! j = Some layer → hooks !! j = Some hook →
     hook_on (fwd_hooks w) hook (block_of layer)) →
  Forall (λ s, runs_ok s) statements →
  (∀ layer, layer ∈ layers →
     ∃ l, acts !! layer = Some l ∧ Ok <$> l = last_token_act layer <$> seen) →
  ∃ w' acts', collect statements layers hooks acts w = (w', Ok acts')
    ∧ same_model w w' ∧ dom acts' = dom acts
    ∧ ∀ layer, layer ∈ layers →
        ∃ l, acts' !! layer = Some l
             ∧ Ok <$> l = last_token_act layer <$> (seen ++ statements).
Proof.
  intros Hnd Hlen Hvalid Hon Hruns. revert w acts seen Hon.
  induction Hruns as [|s ss Hs Hss IH]; intros w acts seen Hon Hacts.
  - exists w, acts. split; [done|]. split; [apply same_model_refl|]. split; [done|].
    intros layer Hl. rewrite app_nil_r. by apply Hacts.
  - unfold runs_ok in Hs. destruct (encode s) as [ids|] eqn:Henc; [|done].
    apply andb_True in Hs as [Hfwd Hlast]. apply forallb_True in Hlast.
    destruct (model_call_ok ids w Hfwd) as (w1 & lg & Hcall & _ & Hm1 & _ & Hslots).
    simpl collect. run_lift Henc.
    run_ok Hcall.
    destruct (read_hooks_ok (zip layers hooks) acts w1 (λ layer, last_token_act layer s))
      as (acts1 & Hread & Hdom1 & Hin1 & _).
    { rewrite fst_zip by lia. done. }
    { intros layer hook Hmem.
      apply list_elem_of_lookup in Hmem as [j Hj].
      apply lookup_zip_with_Some in Hj as (layer' & hook' & [= <- <-] & Hlj & Hhj).
      assert (layer ∈ layers) as Hl by (by eapply list_elem_of_lookup_2).
      split; [destruct (Hacts layer Hl) as (l & -> & _); by eexists|].
      rewrite Forall_forall in Hvalid.
      destruct (layers_getitem_block_of layer (Hvalid layer Hl)) as [Hget Hlt].
      destruct (Hslots hook (block_of layer) (Hon j layer hook Hlj Hhj) Hlt)
        as (h & aux & Hblock & Hout).
      rewrite Forall_forall in Hlast.
      specialize (Hlast (block_of layer)). rewrite Hblock in Hlast.
      destruct (is_ok_Ok _ (Hlast ltac:(apply elem_of_seq; lia))) as [a Ha].
      exists a. split.
      - by rewrite (last_token_act_eq _ _ _ _ _ _ Henc Hget Hblock).
      - unfold read_hook. by rewrite Hout, Ha. }
    run_ok Hread.
    destruct (IH w1 acts1 (seen ++ [s])) as (w' & acts' & Hrun & Hm & Hdom & Hfin).
    { intros j layer hook Hlj Hhj. eapply hook_on_same; [exact Hm1|]. by eapply Hon. }
    { intros layer Hl. rewrite <- (fst_zip layers hooks) in Hl by lia.
      destruct (Hin1 layer Hl) as (l & a & Hacts_l & Hf & Hacts1).
      rewrite (fst_zip layers hooks) in Hl by lia.
      destruct (Hacts layer Hl) as (l' & Hl' & Hrows).
      rewrite Hl' in Hacts_l. injection Hacts_l as ->.
      exists (l ++ [a]). split; [done|].
      rewrite !fmap_app, Hrows. simpl. by rewrite Hf. }
    exists w', acts'. split; [done|].
    split; [by eapply same_model_trans|]. split; [congruence|].
    intros layer Hl. destruct (Hfin layer Hl) as (l & ? & Hrows).
    exists l. split; [done|]. by rewrite <- app_assoc in Hrows.
Qed.

Lemma bind_assoc {A B C} (c : M A) (k : A → M B) (k' : B → M C) w :
  bind (bind c k) k' w = bind c (λ a, bind (k a) k') w.
Proof. unfold bind. by destruct (c w) as [w' [a|e]]. Qed.

Lemma bind_ext {A B} (c : M A) (k k' : A → M B) w :
  (∀ a w', k a w' = k' a w') → bind c k w = bind c k' w.
Proof. intros Hk. unfold bind. destruct (c w) as [w' [a|e]]; [apply Hk|done]. Qed.

Lemma collect_app (l1 l2 : list string) layers hooks acts w :
  collect (l1 ++ l2) layers hooks acts w
  = bind (collect l1 layers hooks acts) (λ acts', collect l2 layers hooks acts') w.
Proof.
  revert acts w. induction l1 as [|s l1 IH]; intros acts w; [done|].
  simpl. rewrite bind_assoc. apply bind_ext. intros ids w1.
  rewrite bind_assoc. apply bind_ext. intros _ w2.
  rewrite bind_assoc. apply bind_ext. intros acts1 w3. apply IH.
Qed.

(** *** Stacking *)

Lemma stack_items_ok (items : list (Z * list (Act Vec))) :
  Forall (λ kv, kv.2 ≠ []) items →
  stack_items items
  = Ok (prod_map Datatypes.id
                 (λ v : list (Act Vec), mkStacked Float32 (a_vec <$> v)) <$> items).
Proof.
  induction 1 as [|[layer act] items Hne Hitems IH]; [done|].
  simpl in *. destruct act as [|a act]; [done|]. simpl. by rewrite IH.
Qed.

Lemma stack_all_ok (acts : gmap Z (list (Act Vec))) :
  (∀ layer v, acts !! layer = Some v → v ≠ []) →
  stack_all acts = Ok ((λ v : list (Act Vec), mkStacked Float32 (a_vec <$> v)) <$> acts).
Proof.
  intros Hne. unfold stack_all. rewrite stack_items_ok.
  - simpl. by rewrite list_to_map_fmap, list_to_map_to_list.
  - apply Forall_forall. intros [layer v] Hin. simpl.
    apply elem_of_map_to_list in Hin. by eapply Hne.
Qed.

Lemma stack_all_empty_value (acts : gmap Z (list (Act Vec))) :
  acts ≠ ∅ → (∀ layer v, acts !! layer = Some v → v = []) →
  stack_all acts = Raise RuntimeError.
Proof.
  intros Hacts Hnil. unfold stack_all.
  destruct (map_to_list acts) as [|[layer v] items] eqn:Hitems.
  - by apply map_to_list_empty_iff in Hitems.
  - assert ((layer, v) ∈ map_to_list acts) as Hin by (rewrite Hitems; by left).
    apply elem_of_map_to_list in Hin. apply Hnil in Hin as ->. done.
Qed.

Lemma attach_hook_on (old : list HookEntry) (layers : list Z) n0 h0 j layer :
  Forall (λ e, he_hook e < h0) old →
  layers !! j = Some layer →
  hook_on (old ++ imap (λ j layer, mkEntry (n0 + j) (block_of layer) (h0 + j)) layers)
          (h0 + j) (block_of layer).
Proof.
  intros Hold Hj. split.
  - exists (mkEntry (n0 + j) (block_of layer) (h0 + j)). split; [|done].
    apply elem_of_app. right.
    by apply (elem_of_lookup_imap_2
      (λ j layer, mkEntry (n0 + j) (block_of layer) (h0 + j))).
  - intros e [He|He]%elem_of_app Hh.
    + rewrite Forall_forall in Hold. apply Hold in He. lia.
    + apply elem_of_lookup_imap in He as (j' & layer' & -> & Hj'). simpl in *.
      assert (j' = j) as -> by lia. congruence.
Qed.

(** *** get_acts *)

Lemma wf_world_hooks (w : World) : wf_world w → Forall (λ e, he_hook e < next_hook w) (fwd_hooks w).
Proof. intros Hwf. eapply Forall_impl; [exact Hwf|]. by intros e [_ ?]. Qed.

Lemma wf_world_ids (w : World) : wf_world w → Forall (λ e, he_id e < next_id w) (fwd_hooks w).
Proof. intros Hwf. eapply Forall_impl; [exact Hwf|]. by intros e [? _]. Qed.

Lemma fmap_Ok_length {A} (l : list A) (f : string → result A) (ss : list string) :
  Ok <$> l = f <$> ss → length l = length ss.
Proof. intros Heq. apply (f_equal length) in Heq. by rewrite !length_fmap in Heq. Qed.

Lemma fmap_Ok_lookup {A} (l : list A) (f : string → result A) (ss : list string) i s :
  Ok <$> l = f <$> ss → ss !! i = Some s → ∃ a, f s = Ok a ∧ l !! i = Some a.
Proof.
  intros Heq Hs. apply (f_equal (λ x, x !! i)) in Heq.
  rewrite !list_lookup_fmap, Hs in Heq. simpl in Heq.
  destruct (l !! i) as [a|]; [|done]. injection Heq as Heq. by exists a.
Qed.

Lemma layers_getitem_mod (layer : Z) :
  (- Z.of_nat num_layers ≤ layer < Z.of_nat num_layers)%Z →
  layers_getitem layer = Ok (Z.to_nat (layer `mod` Z.of_nat num_layers)).
Proof.
  intros Hl. unfold layers_getitem, py_index.
  destruct (decide (0 ≤ layer < Z.of_nat num_layers)%Z) as [Hpos|Hneg].
  - by rewrite Z.mod_small.
  - rewrite decide_True by lia. do 2 f_equal.
    apply (Z.mod_unique _ _ (-1)); lia.
Qed.

Lemma last_token_position (h : Hidden Vec) (a : Act Vec) :
  last_token h = Ok a →
  ∃ positions others,
    h_data h = positions :: others
    ∧ positions !! (length positions - 1) = Some (a_vec a).
Proof.
  unfold last_token. destruct (h_data h) as [|positions others]; [done|].
  destruct (last positions) as [v|] eqn:Hlast; [|done]. intros [= <-].
  exists positions, others. split; [done|].
  by rewrite last_lookup, <- Nat.sub_1_r in Hlast.
Qed.

(** What [last_token_act] reads: the block the subscript selects, the
    first batch entry of its output and the last position of that. *)
Lemma last_token_act_position (layer : Z) (statement : string) (a : Act Vec) :
  (- Z.of_nat num_layers ≤ layer < Z.of_nat num_layers)%Z →
  last_token_act layer statement = Ok a →
  ∃ input_ids h aux positions others,
    encode statement = Ok input_ids
    ∧ block_fwd (Z.to_nat (layer `mod` Z.of_nat num_layers)) input_ids = Ok (h, aux)
    ∧ h_data h = positions :: others
    ∧ positions !! (length positions - 1) = Some (a_vec a).
Proof.
  intros Hl. unfold last_token_act. rewrite (layers_getitem_mod layer Hl).
  destruct (encode statement) as [ids|]; [|done]. simpl.
  destruct (block_fwd _ ids) as [[h aux]|] eqn:Hblock; [|done]. simpl. intros Ha.
  destruct (last_token_position h a Ha) as (positions & others & Hd & Hp).
  exists ids, h, aux, positions, others. by split_and!.
Qed.

(** C3: for a non-empty statement list and distinct layer subscripts
    that select a block (the range [0, num_layers) and its negative
    counterparts), when every statement is tokenized and runs through
    the model, [get_acts] returns a dictionary whose keys are exactly
    the requested layers; every value is a float32 tensor with one row
    per statement, and row [i] is the vector at the last position of
    the first batch entry of the output that the block of that layer
    (block [layer] for a subscript from 0 on, block [num_layers + layer]
    for a negative one) computes on the tokens of statement [i]. *)
Theorem get_acts_returns_last_token_rows (statements : list string) (layers : list Z) w :
  statements ≠ [] →
  NoDup layers →
  Forall (λ layer, (- Z.of_nat num_layers ≤ layer < Z.of_nat num_layers)%Z) layers →
  Forall (λ s, runs_ok s) statements →
  wf_world w →
  ∃ w' acts, get_acts statements layers w = (w', Ok acts)
    ∧ dom acts = list_to_set layers
    ∧ ∀ layer, layer ∈ layers →
        ∃ t, acts !! layer = Some t
          ∧ s_dtype t = Float32
          ∧ length (s_rows t) = length statements
          ∧ ∀ i statement, statements !! i = Some statement →
              ∃ input_ids h aux positions others v,
                encode statement = Ok input_ids
                ∧ block_fwd (Z.to_nat (layer `mod` Z.of_nat num_layers)) input_ids
                  = Ok (h, aux)
                ∧ h_data h = positions :: others
                ∧ positions !! (length positions - 1) = Some v
                ∧ s_rows t !! i = Some v.
Proof.
  intros Hne Hnd Hvalid Hruns Hwf.
  destruct (attach_ok layers w Hvalid) as (w1 & Hatt & Hh & Hi & Hk & Hlog).
  destruct (collect_ok statements layers (seq (next_hook w) (length layers))
              (acts_init layers) w1 [])
    as (w2 & acts2 & Hcol & Hm2 & Hdom2 & Hrows); try done.
  { apply length_seq. }
  { intros j layer hook Hlj [-> _]%lookup_seq. rewrite Hh.
    apply attach_hook_on; [by apply wf_world_hooks|done]. }
  { intros layer Hl. exists []. split; [|done].
    rewrite acts_init_lookup. by rewrite decide_True. }
  simpl in Hrows.
  assert (∀ layer v, acts2 !! layer = Some v → v ≠ []) as Hfull.
  { intros layer v Hv.
    assert (layer ∈ layers) as Hl.
    { apply elem_of_dom_2 in Hv. rewrite Hdom2, acts_init_dom in Hv.
      by apply elem_of_list_to_set in Hv. }
    destruct (Hrows layer Hl) as (l & Hl2 & Heq).
    rewrite Hl2 in Hv. injection Hv as <-.
    apply fmap_Ok_length in Heq. destruct l, statements; done. }
  pose proof (stack_all_ok acts2 Hfull) as Hstack.
  destruct (remove_all_ok (seq (next_id w) (length layers)) w2) as (w3 & Hrem & _).
  eexists w3, _. split.
  { unfold get_acts. run_ok Hatt. cbv beta iota.
    run_ok Hcol.
    run_lift Hstack.
    run_ok Hrem. reflexivity. }
  split; [by rewrite dom_fmap_L, Hdom2, acts_init_dom|].
  intros layer Hl. destruct (Hrows layer Hl) as (l & Hl2 & Heq).
  exists (mkStacked Float32 (a_vec <$> l)).
  split; [by rewrite lookup_fmap, Hl2|]. split; [done|]. cbn [s_rows].
  split; [rewrite length_fmap; by eapply fmap_Ok_length|].
  intros i statement Hi'.
  destruct (fmap_Ok_lookup _ _ _ _ _ Heq Hi') as (a & Ha & Hla).
  rewrite Forall_forall in Hvalid.
  destruct (last_token_act_position layer statement a (Hvalid layer Hl) Ha)
    as (ids & h & aux & positions & others & Henc & Hblock & Hdata & Hpos).
  exists ids, h, aux, positions, others, (a_vec a).
  split_and!; try done. by rewrite list_lookup_fmap, Hla.
Qed.

(** C2 (as amended): with layer subscripts that select a block, the
    hook table holds one more entry per requested layer once the hooks
    are attached and after every processed prefix of the statements;
    when [get_acts] returns normally the table is the one it started
    from, and when it raises (tokenization, forward pass, readout or
    stacking) the registered hooks are all still in the table. *)
Theorem get_acts_hook_count (statements : list string) (layers : list Z) w :
  wf_world w →
  Forall (λ layer, (- Z.of_nat num_layers ≤ layer < Z.of_nat num_layers)%Z) layers →
  ∃ w1 hooks handles,
    attach layers w = (w1, Ok (hooks, handles))
    ∧ hook_count w1 = hook_count w + length layers
    ∧ (∀ k, hook_count (collect (take k statements) layers hooks
                                (acts_init layers) w1).1
            = hook_count w + length layers)
    ∧ match get_acts statements layers w with
      | (w', Ok _) => fwd_hooks w' = fwd_hooks w
      | (w', Raise _) => hook_count w' = hook_count w + length layers
      end.
Proof.
  intros Hwf Hvalid.
  destruct (attach_ok layers w Hvalid) as (w1 & Hatt & Hh & Hi & Hk & Hlog).
  assert (hook_count w1 = hook_count w + length layers) as Hcount.
  { unfold hook_count. by rewrite Hh, length_app, length_imap. }
  eexists w1, _, _. split; [exact Hatt|]. split; [exact Hcount|].
  assert (∀ ss acts, hook_count (collect ss layers
            (seq (next_hook w) (length layers)) acts w1).1
          = hook_count w + length layers) as Hduring.
  { intros ss acts. rewrite <- Hcount. unfold hook_count.
    by destruct (keeps_collect ss layers (seq (next_hook w) (length layers)) acts w1)
      as (-> & _). }
  split; [intros k; apply Hduring|].
  unfold get_acts. run_ok Hatt. cbv beta iota.
  specialize (Hduring statements (acts_init layers)).
  pose proof (keeps_collect statements layers (seq (next_hook w) (length layers))
                (acts_init layers) w1) as (Htable & _).
  unfold bind at 1.
  destruct (collect statements layers _ (acts_init layers) w1) as [w2 [acts2|e]];
    simpl in Hduring, Htable; [|done].
  unfold bind at 1. unfold lift at 1.
  destruct (stack_all acts2) as [stacked|e]; [|done].
  destruct (remove_all_ok (seq (next_id w) (length layers)) w2)
    as (w3 & Hrem & Hfilter & _).
  run_ok Hrem. simpl.
  rewrite Hfilter, Htable, Hh. apply remove_attached. by apply wf_world_ids.
Qed.

(** C10: with no statement and at least one layer [get_acts] does not
    return: it raises, and when the layer subscripts select blocks the
    error is the [RuntimeError] of stacking an empty list. *)
Theorem get_acts_no_statement_raises (layers : list Z) w :
  layers ≠ [] →
  (∃ w' e, get_acts [] layers w = (w', Raise e))
  ∧ (Forall (λ layer, (- Z.of_nat num_layers ≤ layer < Z.of_nat num_layers)%Z) layers →
     ∃ w', get_acts [] layers w = (w', Raise RuntimeError)).
Proof.
  intros Hne.
  assert (stack_all (acts_init layers) = Raise RuntimeError) as Hstack.
  { apply stack_all_empty_value.
    - destruct layers as [|layer layers]; [done|]. intros Hempty.
      apply (f_equal (λ m, m !! layer)) in Hempty.
      rewrite acts_init_lookup, lookup_empty in Hempty.
      rewrite decide_True in Hempty; [done|by left].
    - intros layer v. rewrite acts_init_lookup. case_decide; congruence. }
  assert (∀ w1 hooks handles, attach layers w = (w1, Ok (hooks, handles)) →
            get_acts [] layers w = (w1, Raise RuntimeError)) as Hrun.
  { intros w1 hooks handles Hatt. unfold get_acts.
    run_ok Hatt. cbv beta iota. simpl collect.
    run_prim. by erewrite bind_lift_raise by exact Hstack. }
  split.
  - destruct (attach layers w) as [w1 [[hooks handles]|e]] eqn:Hatt.
    + exists w1, RuntimeError. by eapply Hrun.
    + exists w1, e. unfold get_acts. by erewrite bind_raise by exact Hatt.
  - intros Hvalid. destruct (attach_ok layers w Hvalid) as (w1 & Hatt & _).
    exists w1. by eapply Hrun.
Qed.

(** *** score_probs *)

Lemma score_probs_run (text : string) (input_ids : Tokens) w :
  encode text = Ok input_ids →
  forward_ok input_ids →
  ∃ w' lg, lm_head input_ids = Ok lg
    ∧ score_probs text w = (w', Ok (t_sum (softmax_last lg)))
    ∧ same_model w w'
    ∧ forward_log w' = forward_log w ++ [input_ids].
Proof.
  intros Henc Hfwd.
  destruct (model_call_ok input_ids w Hfwd) as (w' & lg & Hcall & Hlg & Hm & Hlog & _).
  exists w', lg. split; [done|]. split; [|done].
  unfold score_probs. run_lift Henc. by run_ok Hcall.
Qed.

(** C5: [score_probs] tokenizes the text, runs the model exactly once on
    it, and returns the sum ([t.sum]) of all entries of a tensor [probs]
    of the shape of the logits, in which the row at every batch entry
    and every position is the softmax of the logits row at that place,
    taken along the vocabulary; no other metric is computed.  Softmax
    and sum are the tensor library's, on its floating-point numbers. *)
Theorem score_probs_sums_softmax (statement : string) (input_ids : Tokens)
    (lg : Logits F) w :
  encode statement = Ok input_ids →
  forward_ok input_ids →
  lm_head input_ids = Ok lg →
  ∃ w' probs,
    score_probs statement w = (w', Ok (float_sum (concat (concat probs))))
    ∧ length probs = length lg
    ∧ (∀ b batch, lg !! b = Some batch →
         ∃ pbatch, probs !! b = Some pbatch
           ∧ length pbatch = length batch
           ∧ ∀ p row, batch !! p = Some row →
               pbatch !! p = Some (softmax_row row))
    ∧ forward_log w' = forward_log w ++ [input_ids]
    ∧ forward_calls w' = forward_calls w + 1
    ∧ same_model w w'.
Proof.
  intros Henc Hfwd Hlg.
  destruct (score_probs_run statement input_ids w Henc Hfwd)
    as (w' & lg' & Hlg' & Hrun & Hm & Hlog).
  assert (lg' = lg) as -> by congruence.
  exists w', (softmax_last lg). split; [done|].
  split; [unfold softmax_last; by rewrite length_fmap|].
  split.
  { intros b batch Hb. exists (softmax_row <$> batch).
    split; [unfold softmax_last; by rewrite list_lookup_fmap, Hb|].
    split; [by rewrite length_fmap|].
    intros p row Hp. by rewrite list_lookup_fmap, Hp. }
  split; [done|].
  split; [unfold forward_calls; by rewrite Hlog, length_app|]. done.
Qed.

(** *** The Hook, the driver and evaluate *)

(** C8: a call of a Hook on a block's output pair stores the first
    component in the Hook's own slot, whatever the slot held, and leaves
    every other slot, the hook table, the counters and the record of
    the model's inputs as they were; when a block fires, this is what
    happens to each Hook registered on it, the Hooks of other blocks
    being left alone. *)
Theorem Hook_call_writes_only_its_slot (self : nat) (out : Hidden Vec) (aux : Aux) w :
  (∃ w', Hook_call self (out, aux) w = (w', Ok tt)
     ∧ hook_out w' !! self = Some (Some out)
     ∧ (∀ other, other ≠ self → hook_out w' !! other = hook_out w !! other)
     ∧ fwd_hooks w' = fwd_hooks w
     ∧ next_id w' = next_id w
     ∧ next_hook w' = next_hook w
     ∧ forward_log w' = forward_log w)
  ∧ ∀ block, ∃ w', fire block (out, aux) w = (w', Ok tt)
     ∧ same_model w w'
     ∧ forward_log w' = forward_log w
     ∧ ∀ hook b, hook_on (fwd_hooks w) hook b →
         (b = block → hook_out w' !! hook = Some (Some out))
         ∧ (b ≠ block → hook_out w' !! hook = hook_out w !! hook).
Proof.
  split.
  - eexists. split; [reflexivity|]. simpl. split; [apply lookup_insert_eq|].
    split; [|done]. intros other Hne. by rewrite lookup_insert_ne.
  - intros block. apply (fire_ok block (out, aux) w).
Qed.

Lemma imap_fmap_seq {A B} (f : nat → A → B) (g : nat → A) n :
  imap f (g <$> seq 0 n) = (λ k, f k (g k)) <$> seq 0 n.
Proof.
  apply list_eq. intros i.
  rewrite list_lookup_imap, !list_lookup_fmap.
  destruct (seq 0 n !! i) as [k|] eqn:Hk; [|done].
  apply lookup_seq in Hk as [-> _]. done.
Qed.

Lemma block_of_nat (k : nat) : k < num_layers → block_of (Z.of_nat k) = k.
Proof.
  intros Hk. unfold block_of. rewrite layers_getitem_nonneg by lia.
  apply Nat2Z.id.
Qed.

(** C7: the layer list [-1] is replaced by [0, ..., num_layers - 1];
    the driver then behaves as on that list, the world being untouched
    by the replacement, and the hooks [get_acts] attaches for it are one
    per transformer block, in block order. *)
Theorem sentinel_resolves_to_every_block :
  resolve_layers [(-1)%Z] = Z.of_nat <$> seq 0 num_layers
  ∧ (∀ statements correct_answer incorrect_answers w,
       main_dataset [(-1)%Z] statements correct_answer incorrect_answers w
       = main_chunks (Z.of_nat <$> seq 0 num_layers)
                     statements correct_answer incorrect_answers w)
  ∧ ∀ w, ∃ w' hooks handles,
      attach (resolve_layers [(-1)%Z]) w = (w', Ok (hooks, handles))
      ∧ fwd_hooks w'
        = fwd_hooks w
          ++ ((λ k, mkEntry (next_id w + k) k (next_hook w + k)) <$> seq 0 num_layers).
Proof.
  assert (resolve_layers [(-1)%Z] = Z.of_nat <$> seq 0 num_layers) as Hres.
  { unfold resolve_layers. rewrite decide_True by done. by rewrite py_range_unit. }
  split; [done|]. split.
  { intros. unfold main_dataset. by rewrite Hres. }
  intros w. rewrite Hres.
  destruct (attach_ok (Z.of_nat <$> seq 0 num_layers) w) as (w' & Hatt & Hh & _).
  { apply Forall_fmap, Forall_forall. intros k Hk%elem_of_seq. simpl. lia. }
  eexists w', _, _. split; [exact Hatt|]. rewrite Hh. f_equal.
  rewrite imap_fmap_seq. apply list_fmap_ext. intros i k Hk.
  apply lookup_seq in Hk as [-> Hlt]. simpl. by rewrite block_of_nat by lia.
Qed.

(** C9: a layer list other than [-1] is passed on unchanged, so a -1
    that stands among other subscripts is not expanded; as a subscript
    of the block list it selects the last block, and that is the block
    its Hook is registered on. *)
Theorem sentinel_among_others_is_last_block (layers : list Z) w :
  layers ≠ [(-1)%Z] →
  resolve_layers layers = layers
  ∧ ((-1)%Z ∈ layers →
     Forall (λ layer, (- Z.of_nat num_layers ≤ layer < Z.of_nat num_layers)%Z) layers →
     layers_getitem (-1) = Ok (num_layers - 1)
     ∧ ∃ w' hooks handles,
         attach (resolve_layers layers) w = (w', Ok (hooks, handles))
         ∧ length (fwd_hooks w') = length (fwd_hooks w) + length layers
         ∧ ∀ j, layers !! j = Some (-1)%Z →
             fwd_hooks w' !! (length (fwd_hooks w) + j)
             = Some (mkEntry (next_id w + j) (num_layers - 1) (next_hook w + j))).
Proof.
  intros Hne.
  assert (resolve_layers layers = layers) as Hres.
  { unfold resolve_layers. by rewrite decide_False. }
  split; [done|]. intros Hin Hvalid.
  assert (0 < num_layers) as Hpos.
  { rewrite Forall_forall in Hvalid. specialize (Hvalid _ Hin). lia. }
  pose proof (layers_getitem_last Hpos) as Hlast.
  split; [done|]. rewrite Hres.
  destruct (attach_ok layers w Hvalid) as (w' & Hatt & Hh & _).
  eexists w', _, _. split; [exact Hatt|]. rewrite Hh. split.
  { by rewrite length_app, length_imap. }
  intros j Hj. rewrite lookup_app_r by lia.
  replace (length (fwd_hooks w) + j - length (fwd_hooks w)) with j by lia.
  rewrite list_lookup_imap, Hj. simpl. unfold block_of. by rewrite Hlast.
Qed.

Lemma unpack2_by_length (s : string) :
  if decide (String.length s = 2) then ∃ i statement, unpack2 s = Ok (i, statement)
  else unpack2 s = Raise ValueError.
Proof.
  destruct s as [|a [|b [|c s]]]; try done; by eexists _, _.
Qed.

Lemma evaluate_loop_raises (statement : string) (rest : list string)
    (correct_answers incorrect_answers : list string) (labels : list Label) w :
  ∃ e, evaluate_loop (statement :: rest) correct_answers incorrect_answers labels w
       = (w, Raise e).
Proof.
  simpl evaluate_loop.
  destruct (unpack2 statement) as [[i s]|e].
  - exists TypeError. erewrite bind_lift_ok by reflexivity. cbv beta iota.
    erewrite bind_raise; [done|]. unfold evaluate_body.
    by erewrite bind_lift_raise by reflexivity.
  - exists e. by erewrite bind_lift_raise by reflexivity.
Qed.

(** C1 (what the code does instead): on every non-empty list of
    statement strings [evaluate] returns no label.  Unpacking the first
    string into [i, statement] raises [ValueError] unless the string has
    exactly two characters; when it has, subscripting [correct_answers]
    with the one-character string [i] raises [TypeError].  The world is
    untouched: nothing has been scored. *)
Theorem evaluate_raises_on_strings (statement : string) (rest : list string)
    (correct_answers incorrect_answers : list string) w :
  evaluate (statement :: rest) correct_answers incorrect_answers w
  = (w, Raise (if decide (String.length statement = 2) then TypeError
               else ValueError)).
Proof.
  unfold evaluate. simpl evaluate_loop.
  pose proof (unpack2_by_length statement) as Hunpack.
  destruct (decide (String.length statement = 2)) as [Hlen|Hlen].
  - destruct Hunpack as (i & s & Hunpack).
    run_lift Hunpack. cbv beta iota.
    erewrite bind_raise; [done|]. unfold evaluate_body.
    by erewrite bind_lift_raise by reflexivity.
  - by erewrite bind_lift_raise by exact Hunpack.
Qed.

(** Every iteration of the driver's loop raises: the chunk is not
    empty, so [evaluate] raises when [get_acts] has not. *)
Lemma process_chunk_raises (layers : list Z)
    (statements correct_answer incorrect_answers : list string) (idx : nat) w :
  idx < length statements →
  ∃ w' e, process_chunk layers statements correct_answer incorrect_answers idx w
          = (w', Raise e).
Proof.
  intros Hidx. unfold process_chunk, chunk_at.
  destruct (get_acts (py_slice statements idx (idx + 25)) layers w)
    as [w1 [acts|e]] eqn:Hacts.
  - run_ok Hacts.
    assert (∃ s rest, py_slice statements idx (idx + 25) = s :: rest) as (s & rest & ->).
    { unfold py_slice. replace (idx + 25 - idx) with 25 by lia.
      destruct (drop idx statements) as [|s rest] eqn:Hdrop.
      - apply (f_equal length) in Hdrop. rewrite length_drop in Hdrop.
        simpl in Hdrop. lia.
      - by eexists _, _. }
    destruct (evaluate_loop_raises s rest
                (py_slice correct_answer idx (idx + 25))
                (py_slice incorrect_answers idx (idx + 25))
                (replicate (length (s :: rest)) (LInt 0)) w1) as (e & Hev).
    exists w1, e. by erewrite bind_raise by exact Hev.
  - exists w1, e. by erewrite bind_raise by exact Hacts.
Qed.


Lemma main_dataset_raises (arg_layers : list Z)
    (statements correct_answer incorrect_answers : list string) w :
  statements ≠ [] →
  ∃ w' e, main_dataset arg_layers statements correct_answer incorrect_answers w
          = (w', Raise e).
Proof.
  intros Hne. unfold main_dataset, main_chunks.
  assert (0 < length statements) as Hlen by (destruct statements; [done|simpl; lia]).
  rewrite py_range_step_0 by done.
  replace ((length statements - 1) `div` 25 + 1)
    with (S ((length statements - 1) `div` 25)) by lia.
  rewrite <- cons_seq, fmap_cons. simpl map_m.
  destruct (process_chunk_raises (resolve_layers arg_layers) statements
              correct_answer incorrect_answers (0 * 25) w) as (w' & e & Hrun); [lia|].
  exists w', e. erewrite bind_raise; [done|].
  by erewrite bind_raise by exact Hrun.
Qed.

(** ** Further properties of the code *)

(** *** The hook table stays well formed *)

Lemma wf_world_same (w w' : World) : same_model w w' → wf_world w → wf_world w'.
Proof. unfold wf_world. by intros (-> & -> & ->). Qed.

Lemma keeps_wf {A} (c : M A) w : keeps_model c → wf_world w → wf_world (c w).1.
Proof. intros Hc. apply wf_world_same, Hc. Qed.

Lemma attach_wf (layers : list Z) w : wf_world w → wf_world (attach layers w).1.
Proof.
  revert w. induction layers as [|layer layers IH]; intros w Hwf; [done|].
  simpl attach. run_prim.
  assert (wf_world (mkWorld (fwd_hooks w) (next_id w)
            (<[next_hook w := None]> (hook_out w)) (S (next_hook w)) (forward_log w)))
    as Hwf1.
  { unfold wf_world in *. simpl. eapply Forall_impl; [exact Hwf|].
    intros e [? ?]. split; lia. }
  destruct (layers_getitem layer) as [block|e].
  - erewrite bind_lift_ok by reflexivity. run_prim.
    match goal with |- context [bind (attach layers) _ ?w1] =>
      specialize (IH w1); destruct (attach layers w1) as [w2 [[hooks handles]|e]] eqn:Hatt
    end.
    + run_ok Hatt. simpl in *. apply IH.
      unfold wf_world in *. simpl in *. apply Forall_app. split.
      * eapply Forall_impl; [exact Hwf1|]. intros e [? ?]. split; lia.
      * apply Forall_singleton. simpl. lia.
    + erewrite bind_raise by exact Hatt. simpl in *. apply IH.
      unfold wf_world in *. simpl in *. apply Forall_app. split.
      * eapply Forall_impl; [exact Hwf1|]. intros e' [? ?]. split; lia.
      * apply Forall_singleton. simpl. lia.
  - by erewrite bind_lift_raise by reflexivity.
Qed.

Lemma remove_all_wf (handles : list nat) w :
  wf_world w → wf_world (for_each handles handle_remove w).1.
Proof.
  intros Hwf.
  destruct (remove_all_ok handles w) as (w' & -> & Hh & Hi & Hk & _).
  unfold wf_world in *. simpl. rewrite Hh, Hi, Hk.
  apply Forall_forall. intros e [_ He]%list_elem_of_filter.
  rewrite Forall_forall in Hwf. by apply Hwf.
Qed.

Lemma wf_bind {A B} (c : M A) (k : A → M B) w :
  wf_world (c w).1 → (∀ a w1, wf_world w1 → wf_world (k a w1).1) →
  wf_world (bind c k w).1.
Proof.
  intros Hc Hk. unfold bind. destruct (c w) as [w1 [a|e]]; [by apply Hk|done].
Qed.

Lemma get_acts_wf (statements : list string) (layers : list Z) w :
  wf_world w → wf_world (get_acts statements layers w).1.
Proof.
  intros Hwf. unfold get_acts.
  apply wf_bind; [by apply attach_wf|]. intros [hooks handles] w1 Hwf1.
  apply wf_bind; [by apply keeps_wf; [apply keeps_collect|]|]. intros acts w2 Hwf2.
  apply wf_bind; [done|]. intros stacked w3 Hwf3.
  apply wf_bind; [by apply remove_all_wf|]. by intros _ w4 Hwf4.
Qed.

Lemma keeps_evaluate_body i statement correct_answers incorrect_answers labels :
  keeps_model (evaluate_body i statement correct_answers incorrect_answers labels).
Proof.
  unfold evaluate_body. apply keeps_bind; [apply keeps_lift|]. intros answer.
  apply keeps_bind; [apply keeps_score_probs|]. intros p.
  apply keeps_bind; [apply keeps_map_m; intros; apply keeps_score_probs|].
  intros ps. apply keeps_bind; [apply keeps_lift|]. intros top. apply keeps_lift.
Qed.

Lemma keeps_evaluate statements correct_answers incorrect_answers :
  keeps_model (evaluate statements correct_answers incorrect_answers).
Proof.
  unfold evaluate. generalize (replicate (length statements) (LInt 0)).
  induction statements as [|s ss IH]; intros labels; simpl; [apply keeps_ret|].
  apply keeps_bind; [apply keeps_lift|]. intros [i statement].
  apply keeps_bind; [apply keeps_evaluate_body|]. intros labels'. apply IH.
Qed.

Lemma process_chunk_wf layers statements correct_answer incorrect_answers idx w :
  wf_world w →
  wf_world (process_chunk layers statements correct_answer incorrect_answers idx w).1.
Proof.
  intros Hwf. unfold process_chunk, chunk_at.
  apply wf_bind; [by apply get_acts_wf|]. intros acts w1 Hwf1.
  apply wf_bind; [by apply keeps_wf; [apply keeps_evaluate|]|]. by intros _ w2 Hwf2.
Qed.

Lemma map_m_wf {A B} (f : A → M B) (l : list A) w :
  (∀ x w1, wf_world w1 → wf_world (f x w1).1) →
  wf_world w → wf_world (map_m f l w).1.
Proof.
  intros Hf. revert w. induction l as [|x l IH]; intros w Hwf; [done|].
  simpl. apply wf_bind; [by apply Hf|]. intros y w1 Hwf1.
  apply wf_bind; [by apply IH|]. by intros ys w2 Hwf2.
Qed.

(** X1: whatever the inputs and the outcome, [get_acts], [evaluate] and
    the driver leave the hook table well formed: every handle id and
    every Hook object in it was issued by the counters, so a later
    registration can never collide with an entry left behind. *)
Theorem hook_table_stays_well_formed (arg_layers layers : list Z)
    (statements correct_answer incorrect_answers : list string) w :
  wf_world w →
  wf_world (get_acts statements layers w).1
  ∧ wf_world (evaluate statements correct_answer incorrect_answers w).1
  ∧ wf_world (main_dataset arg_layers statements correct_answer
                incorrect_answers w).1.
Proof.
  intros Hwf. split; [by apply get_acts_wf|]. split.
  - by apply keeps_wf; [apply keeps_evaluate|].
  - unfold main_dataset, main_chunks.
    apply wf_bind; [|by intros saved w1 Hwf1].
    apply map_m_wf; [|done]. intros idx w1 Hwf1. by apply process_chunk_wf.
Qed.

(** *** get_acts on any list of layer subscripts that select blocks *)

Lemma occurrences_cons (layer l : Z) (layers : list Z) :
  occurrences layer (l :: layers)
  = (if decide (l = layer) then 1 else 0) + occurrences layer layers.
Proof. unfold occurrences. rewrite filter_cons. by case_decide. Qed.

Lemma occurrences_pos (layer : Z) (layers : list Z) :
  layer ∈ layers → 0 < occurrences layer layers.
Proof.
  induction layers as [|l layers IH]; [by intros ?%elem_of_nil|].
  rewrite occurrences_cons. intros [->|Hin]%elem_of_cons.
  - rewrite decide_True by done. lia.
  - specialize (IH Hin). lia.
Qed.

Lemma occurrences_NoDup (layer : Z) (layers : list Z) :
  NoDup layers → layer ∈ layers → occurrences layer layers = 1.
Proof.
  induction 1 as [|l layers Hnin Hnd IH]; [by intros ?%elem_of_nil|].
  rewrite occurrences_cons. intros [->|Hin]%elem_of_cons.
  - rewrite decide_True by done.
    assert (occurrences l layers = 0) as ->; [|done].
    unfold occurrences. rewrite filter_none; [done|].
    apply Forall_forall. by intros x Hx ->.
  - rewrite decide_False by (by intros ->). by apply IH.
Qed.

Lemma read_hooks_count (ps : list (Z * nat)) (acts : gmap Z (list (Act Vec))) w
    (f : Z → result (Act Vec)) :
  (∀ layer hook, (layer, hook) ∈ ps →
     is_Some (acts !! layer) ∧ ∃ a, f layer = Ok a ∧ read_hook hook w = (w, Ok a)) →
  ∃ acts', read_hooks ps acts w = (w, Ok acts')
    ∧ dom acts' = dom acts
    ∧ ∀ layer l, acts !! layer = Some l →
        ∃ l', acts' !! layer = Some l'
              ∧ Ok <$> l' = (Ok <$> l) ++ replicate (occurrences layer ps.*1) (f layer).
Proof.
  revert acts. induction ps as [|[layer hook] ps IH]; intros acts Hps.
  - exists acts. split; [done|]. split; [done|].
    intros layer l Hl. exists l. split; [done|]. by rewrite app_nil_r.
  - destruct (Hps layer hook) as [[l0 Hl0] (a & Hf & Hread)]; [by left|].
    simpl read_hooks. unfold append_act. rewrite Hl0.
    erewrite bind_ok; [|run_ok Hread; reflexivity].
    destruct (IH (<[layer := l0 ++ [a]]> acts)) as (acts' & Hrun & Hdom & Hrows).
    { intros layer' hook' Hmem. destruct (Hps layer' hook') as [Hs Ha]; [by right|].
      split; [|done]. rewrite lookup_insert_is_Some.
      destruct (decide (layer = layer')); [by left|by right]. }
    exists acts'. split; [done|]. split.
    { rewrite Hdom, dom_insert_L. apply elem_of_dom_2 in Hl0.
      apply set_eq. intros x. rewrite elem_of_union, elem_of_singleton.
      split; [by intros [->|?]|by right]. }
    intros layer' l Hl. rewrite fmap_cons, occurrences_cons. simpl.
    destruct (decide (layer = layer')) as [->|Hne].
    + rewrite Hl0 in Hl. injection Hl as <-.
      destruct (Hrows layer' (l0 ++ [a])) as (l' & Hl' & Heq);
        [apply lookup_insert_eq|].
      exists l'. split; [done|]. rewrite Heq, fmap_app, Hf, <- app_assoc. done.
    + destruct (Hrows layer' l) as (l' & Hl' & Heq);
        [by rewrite lookup_insert_ne|].
      exists l'. by split.
Qed.

Lemma collect_run (statements : list string) (layers : list Z) (hooks : list nat)
    (acts : gmap Z (list (Act Vec))) w (seen : list string) :
  length hooks = length layers →
  Forall (λ layer, (- Z.of_nat num_layers ≤ layer < Z.of_nat num_layers)%Z) layers →
  (∀ j layer hook, layers !! j = Some layer → hooks !! j = Some hook →
     hook_on (fwd_hooks w) hook (block_of layer)) →
  Forall (λ s, runs_ok s) statements →
  dom acts = list_to_set layers →
  (∀ layer l, acts !! layer = Some l → Ok <$> l = expected_acts layers layer seen) →
  ∃ w' acts' ids, collect statements layers hooks acts w = (w', Ok acts')
    ∧ same_model w w'
    ∧ forward_log w' = forward_log w ++ ids
    ∧ Ok <$> ids = encode <$> statements
    ∧ dom acts' = list_to_set layers
    ∧ ∀ layer l, acts' !! layer = Some l →
        Ok <$> l = expected_acts layers layer (seen ++ statements).
Proof.
  intros Hlen Hvalid Hon Hruns. revert w acts seen Hon.
  induction Hruns as [|s ss Hs Hss IH]; intros w acts seen Hon Hdom Hacts.
  - exists w, acts, []. split; [done|]. split; [apply same_model_refl|].
    rewrite !app_nil_r. by repeat split.
  - unfold runs_ok in Hs. destruct (encode s) as [ids|] eqn:Henc; [|done].
    apply andb_True in Hs as [Hfwd Hlast]. apply forallb_True in Hlast.
    destruct (model_call_ok ids w Hfwd) as (w1 & lg & Hcall & _ & Hm1 & Hlog1 & Hslots).
    simpl collect. run_lift Henc. run_ok Hcall.
    destruct (read_hooks_count (zip layers hooks) acts w1 (λ layer, last_token_act layer s))
      as (acts1 & Hread & Hdom1 & Hrows1).
    { intros layer hook Hmem.
      apply list_elem_of_lookup in Hmem as [j Hj].
      apply lookup_zip_with_Some in Hj as (layer' & hook' & [= <- <-] & Hlj & Hhj).
      assert (layer ∈ layers) as Hl by (by eapply list_elem_of_lookup_2).
      split.
      { apply elem_of_dom. rewrite Hdom. by apply elem_of_list_to_set. }
      rewrite Forall_forall in Hvalid.
      destruct (layers_getitem_block_of layer (Hvalid layer Hl)) as [Hget Hlt].
      destruct (Hslots hook (block_of layer) (Hon j layer hook Hlj Hhj) Hlt)
        as (h & aux & Hblock & Hout).
      rewrite Forall_forall in Hlast.
      specialize (Hlast (block_of layer)). rewrite Hblock in Hlast.
      destruct (is_ok_Ok _ (Hlast ltac:(apply elem_of_seq; lia))) as [a Ha].
      exists a. split.
      - by rewrite (last_token_act_eq _ _ _ _ _ _ Henc Hget Hblock).
      - unfold read_hook. by rewrite Hout, Ha. }
    run_ok Hread. rewrite fst_zip in Hrows1 by lia.
    destruct (IH w1 acts1 (seen ++ [s]))
      as (w' & acts' & ids' & Hrun & Hm & Hlog & Hids & Hdom' & Hfin).
    { intros j layer hook Hlj Hhj. eapply hook_on_same; [exact Hm1|]. by eapply Hon. }
    { congruence. }
    { intros layer l1 Hl1.
      assert (is_Some (acts !! layer)) as [l Hl].
      { apply elem_of_dom. rewrite <- Hdom1. by apply elem_of_dom_2 in Hl1. }
      destruct (Hrows1 layer l Hl) as (l' & Hl' & Heq).
      rewrite Hl' in Hl1. injection Hl1 as <-.
      rewrite Heq, (Hacts layer l Hl). unfold expected_acts.
      by rewrite fmap_app, concat_app, fmap_app, fmap_cons, fmap_nil, concat_cons,
        concat_nil, app_nil_r, fmap_replicate. }
    exists w', acts', (ids :: ids'). split; [done|].
    split; [by eapply same_model_trans|].
    split; [by rewrite Hlog, Hlog1, <- app_assoc|].
    split; [by rewrite !fmap_cons, Henc, Hids|]. split; [done|].
    intros layer l Hl. rewrite (Hfin layer l Hl). by rewrite <- app_assoc.
Qed.

Lemma expected_acts_length layers layer l statements :
  Ok <$> l = expected_acts layers layer statements →
  length l = length statements * occurrences layer layers.
Proof.
  intros Heq. apply (f_equal length) in Heq.
  unfold expected_acts in Heq. rewrite !length_fmap in Heq. rewrite Heq.
  clear Heq. induction statements as [|s ss IH]; [done|].
  rewrite fmap_cons, concat_cons, length_app, length_replicate, IH.
  cbn [length]. lia.
Qed.

(** The outcome of [get_acts] when every statement runs: the
    dictionary, the restored hook table, the counters and the record of
    forward passes. *)
Lemma get_acts_run (statements : list string) (layers : list Z) w :
  Forall (λ layer, (- Z.of_nat num_layers ≤ layer < Z.of_nat num_layers)%Z) layers →
  Forall (λ s, runs_ok s) statements →
  wf_world w →
  statements ≠ [] ∨ layers = [] →
  ∃ w' acts ids, get_acts statements layers w = (w', Ok acts)
    ∧ fwd_hooks w' = fwd_hooks w
    ∧ next_id w' = next_id w + length layers
    ∧ next_hook w' = next_hook w + length layers
    ∧ forward_log w' = forward_log w ++ ids
    ∧ Ok <$> ids = encode <$> statements
    ∧ dom acts = list_to_set layers
    ∧ ∀ layer t, acts !! layer = Some t →
        s_dtype t = Float32
        ∧ ∃ l, s_rows t = a_vec <$> l
               ∧ Ok <$> l = expected_acts layers layer statements.
Proof.
  intros Hvalid Hruns Hwf Hne.
  destruct (attach_ok layers w Hvalid) as (w1 & Hatt & Hh & Hi & Hk & Hlog).
  destruct (collect_run statements layers (seq (next_hook w) (length layers))
              (acts_init layers) w1 [])
    as (w2 & acts2 & ids & Hcol & Hm2 & Hlog2 & Hids & Hdom2 & Hrows); try done.
  { apply length_seq. }
  { intros j layer hook Hlj [-> _]%lookup_seq. rewrite Hh.
    apply attach_hook_on; [by apply wf_world_hooks|done]. }
  { apply acts_init_dom. }
  { intros layer l. rewrite acts_init_lookup. case_decide; [|done].
    intros [= <-]. unfold expected_acts. done. }
  simpl in Hrows.
  assert (∀ layer v, acts2 !! layer = Some v → v ≠ []) as Hfull.
  { intros layer v Hv.
    assert (layer ∈ layers) as Hl.
    { apply elem_of_dom_2 in Hv. rewrite Hdom2 in Hv.
      by apply elem_of_list_to_set in Hv. }
    destruct Hne as [Hne| ->]; [|by apply elem_of_nil in Hl].
    pose proof (expected_acts_length _ _ _ _ (Hrows layer v Hv)) as Hlen.
    pose proof (occurrences_pos layer layers Hl).
    destruct v; [|done]. destruct statements; [done|]. simpl in Hlen. lia. }
  pose proof (stack_all_ok acts2 Hfull) as Hstack.
  destruct (remove_all_ok (seq (next_id w) (length layers)) w2)
    as (w3 & Hrem & Hfilter & Hi3 & Hk3 & _ & Hlog3).
  destruct Hm2 as (Htable & Hi2 & Hk2).
  eexists w3, _, ids. split.
  { unfold get_acts. run_ok Hatt. cbv beta iota.
    run_ok Hcol. run_lift Hstack. run_ok Hrem. reflexivity. }
  split. { rewrite Hfilter, Htable, Hh. apply remove_attached. by apply wf_world_ids. }
  split; [congruence|]. split; [congruence|].
  split; [congruence|]. split; [done|].
  split; [by rewrite dom_fmap_L|].
  intros layer t. rewrite lookup_fmap.
  destruct (acts2 !! layer) as [l|] eqn:Hl; [|done]. intros [= <-].
  split; [done|]. exists l. split; [done|]. by apply Hrows.
Qed.

Lemma Ok_fmap_inj {A} (l1 l2 : list A) : Ok <$> l1 = Ok <$> l2 → l1 = l2.
Proof.
  revert l2. induction l1 as [|x l1 IH]; intros [|y l2]; try done.
  rewrite !fmap_cons. intros [= -> Heq]. f_equal. by apply IH.
Qed.

Lemma expected_acts_app layers layer (l1 l2 : list string) :
  expected_acts layers layer (l1 ++ l2)
  = expected_acts layers layer l1 ++ expected_acts layers layer l2.
Proof. unfold expected_acts. by rewrite fmap_app, concat_app, fmap_app. Qed.

Lemma replicated_lookup {A} (c : nat) (l : list A) i j x :
  l !! i = Some x → j < c →
  concat (replicate c <$> l) !! (i * c + j) = Some x.
Proof.
  revert i. induction l as [|y l IH]; intros i Hi Hj; [done|].
  rewrite fmap_cons, concat_cons. destruct i as [|i]; simpl in Hi.
  - injection Hi as ->. rewrite lookup_app_l by (rewrite length_replicate; lia).
    by apply lookup_replicate_2.
  - rewrite lookup_app_r by (rewrite length_replicate; lia).
    rewrite length_replicate.
    replace (S i * c + j - c) with (i * c + j) by lia. by apply IH.
Qed.

(** X2: a layer requested several times gets one Hook per occurrence
    and a single dictionary entry, so its tensor holds that many rows
    for every statement: with [c] occurrences the tensor has [c] times
    as many rows as there are statements, and rows [i*c .. i*c + c - 1]
    all hold the vector at the last position of the first batch entry
    of the output that the layer's block computes on the tokens of
    statement [i]. *)
Theorem get_acts_repeated_layer_rows (statements : list string) (layers : list Z) w :
  statements ≠ [] →
  Forall (λ layer, (- Z.of_nat num_layers ≤ layer < Z.of_nat num_layers)%Z) layers →
  Forall (λ s, runs_ok s) statements →
  wf_world w →
  ∃ w' acts, get_acts statements layers w = (w', Ok acts)
    ∧ dom acts = list_to_set layers
    ∧ ∀ layer, layer ∈ layers →
        ∃ t, acts !! layer = Some t
          ∧ length (s_rows t) = length statements * occurrences layer layers
          ∧ ∀ i j statement,
              statements !! i = Some statement → j < occurrences layer layers →
              ∃ input_ids h aux positions others v,
                encode statement = Ok input_ids
                ∧ block_fwd (Z.to_nat (layer `mod` Z.of_nat num_layers)) input_ids
                  = Ok (h, aux)
                ∧ h_data h = positions :: others
                ∧ positions !! (length positions - 1) = Some v
                ∧ s_rows t !! (i * occurrences layer layers + j) = Some v.
Proof.
  intros Hne Hvalid Hruns Hwf.
  destruct (get_acts_run statements layers w Hvalid Hruns Hwf (or_introl Hne))
    as (w' & acts & ids & Hrun & _ & _ & _ & _ & _ & Hdom & Hrows).
  exists w', acts. split; [done|]. split; [done|].
  intros layer Hl.
  assert (is_Some (acts !! layer)) as [t Ht].
  { apply elem_of_dom. rewrite Hdom. by apply elem_of_list_to_set. }
  destruct (Hrows layer t Ht) as (_ & l & Hl_rows & Heq).
  exists t. split; [done|]. rewrite Hl_rows, length_fmap. split.
  { by eapply expected_acts_length. }
  intros i j statement Hi Hj.
  apply (f_equal (λ x, x !! (i * occurrences layer layers + j))) in Heq.
  unfold expected_acts in Heq.
  rewrite !list_lookup_fmap, (replicated_lookup _ _ _ _ _ Hi Hj) in Heq.
  simpl in Heq. destruct (l !! (i * occurrences layer layers + j)) as [a|] eqn:Ha;
    [|done].
  injection Heq as Heq. rewrite Forall_forall in Hvalid.
  destruct (last_token_act_position layer statement a (Hvalid layer Hl)
              (eq_sym Heq))
    as (ids' & h & aux & positions & others & Henc & Hblock & Hdata & Hpos).
  exists ids', h, aux, positions, others, (a_vec a).
  split_and!; try done. by rewrite list_lookup_fmap, Ha.
Qed.

(** X3: with an empty layer list [get_acts] registers nothing and
    returns the empty dictionary, also for an empty statement list (no
    tensor is stacked, so nothing raises); it still runs the model once
    on every statement. *)
Theorem get_acts_no_layer_returns_empty (statements : list string) w :
  Forall (λ s, runs_ok s) statements →
  ∃ w' ids, get_acts statements [] w = (w', Ok ∅)
    ∧ same_model w w'
    ∧ forward_log w' = forward_log w ++ ids
    ∧ Ok <$> ids = encode <$> statements.
Proof.
  intros Hruns.
  destruct (collect_run statements [] [] (acts_init []) w [])
    as (w2 & acts2 & ids & Hcol & Hm2 & Hlog2 & Hids & Hdom2 & _); try done.
  assert (acts2 = ∅) as ->.
  { apply dom_empty_iff_L. rewrite Hdom2. done. }
  exists w2, ids. split; [|done].
  unfold get_acts. simpl attach. run_prim. cbv beta iota.
  unfold acts_init in Hcol. simpl in Hcol. run_ok Hcol.
  erewrite bind_lift_ok by (unfold stack_all; rewrite map_to_list_empty; reflexivity).
  simpl. reflexivity.
Qed.

(** X4: splitting a batch does not change the activations: for every
    layer, the rows [get_acts] returns for [first ++ second] are the
    rows it returns for [first] followed by the rows it returns for
    [second], whatever well-formed worlds the three calls start from. *)
Theorem get_acts_rows_of_concatenation (first second : list string) (layers : list Z)
    w wa wb :
  first ≠ [] → second ≠ [] →
  Forall (λ layer, (- Z.of_nat num_layers ≤ layer < Z.of_nat num_layers)%Z) layers →
  Forall (λ s, runs_ok s) first → Forall (λ s, runs_ok s) second →
  wf_world w → wf_world wa → wf_world wb →
  ∃ acts acts_a acts_b,
    (get_acts (first ++ second) layers w).2 = Ok acts
    ∧ (get_acts first layers wa).2 = Ok acts_a
    ∧ (get_acts second layers wb).2 = Ok acts_b
    ∧ ∀ layer, layer ∈ layers →
        ∃ t ta tb, acts !! layer = Some t ∧ acts_a !! layer = Some ta
                   ∧ acts_b !! layer = Some tb
                   ∧ s_rows t = s_rows ta ++ s_rows tb.
Proof.
  intros Hne1 Hne2 Hvalid Hr1 Hr2 Hwf Hwfa Hwfb.
  destruct (get_acts_run (first ++ second) layers w Hvalid)
    as (w' & acts & ids & Hrun & _ & _ & _ & _ & _ & Hdom & Hrows);
    [by apply Forall_app|done|left; by destruct first|].
  destruct (get_acts_run first layers wa Hvalid Hr1 Hwfa (or_introl Hne1))
    as (wa' & acts_a & ids_a & Hrun_a & _ & _ & _ & _ & _ & Hdom_a & Hrows_a).
  destruct (get_acts_run second layers wb Hvalid Hr2 Hwfb (or_introl Hne2))
    as (wb' & acts_b & ids_b & Hrun_b & _ & _ & _ & _ & _ & Hdom_b & Hrows_b).
  exists acts, acts_a, acts_b. rewrite Hrun, Hrun_a, Hrun_b.
  split; [done|]. split; [done|]. split; [done|].
  intros layer Hl.
  assert (layer ∈ (list_to_set layers : gset Z)) as Hin by (by apply elem_of_list_to_set).
  assert (is_Some (acts !! layer)) as [t Ht] by (apply elem_of_dom; by rewrite Hdom).
  assert (is_Some (acts_a !! layer)) as [ta Hta] by (apply elem_of_dom; by rewrite Hdom_a).
  assert (is_Some (acts_b !! layer)) as [tb Htb] by (apply elem_of_dom; by rewrite Hdom_b).
  exists t, ta, tb. split; [done|]. split; [done|]. split; [done|].
  destruct (Hrows layer t Ht) as (_ & l & -> & Heq).
  destruct (Hrows_a layer ta Hta) as (_ & la & -> & Heq_a).
  destruct (Hrows_b layer tb Htb) as (_ & lb & -> & Heq_b).
  rewrite expected_acts_app, <- Heq_a, <- Heq_b, <- fmap_app in Heq.
  apply Ok_fmap_inj in Heq as ->. by rewrite fmap_app.
Qed.

(** X5: hooks that an earlier call left registered (a batch that
    raised) do not disturb a later batch: whatever the earlier call was
    and however it ended, the later call returns the dictionary it
    returns on the untouched model, and the hooks left behind are still
    in the table afterwards. *)
Theorem get_acts_after_any_earlier_call (earlier statements : list string)
    (earlier_layers layers : list Z) w :
  statements ≠ [] →
  Forall (λ layer, (- Z.of_nat num_layers ≤ layer < Z.of_nat num_layers)%Z) layers →
  Forall (λ s, runs_ok s) statements →
  wf_world w →
  ∃ acts w2,
    get_acts statements layers (get_acts earlier earlier_layers w).1 = (w2, Ok acts)
    ∧ (get_acts statements layers w).2 = Ok acts
    ∧ fwd_hooks w2 = fwd_hooks (get_acts earlier earlier_layers w).1.
Proof.
  intros Hne Hvalid Hruns Hwf.
  pose proof (get_acts_wf earlier earlier_layers w Hwf) as Hwf1.
  destruct (get_acts_run statements layers _ Hvalid Hruns Hwf1 (or_introl Hne))
    as (w2 & acts1 & ids1 & Hrun1 & Htable & _ & _ & _ & _ & Hdom1 & Hrows1).
  destruct (get_acts_run statements layers w Hvalid Hruns Hwf (or_introl Hne))
    as (w3 & acts & ids & Hrun & _ & _ & _ & _ & _ & Hdom & Hrows).
  exists acts1, w2. split; [done|]. split; [|done].
  rewrite Hrun. simpl. f_equal. apply map_eq. intros layer.
  destruct (acts !! layer) as [t|] eqn:Ht.
  - assert (is_Some (acts1 !! layer)) as [t1 Ht1].
    { apply elem_of_dom. rewrite Hdom1, <- Hdom. by apply elem_of_dom_2 in Ht. }
    rewrite Ht1. f_equal.
    destruct (Hrows layer t Ht) as (Hd & l & Hl & Heq).
    destruct (Hrows1 layer t1 Ht1) as (Hd1 & l1 & Hl1 & Heq1).
    rewrite <- Heq1 in Heq. apply Ok_fmap_inj in Heq as ->.
    destruct t, t1. simpl in *. congruence.
  - symmetry. apply not_elem_of_dom. rewrite Hdom1, <- Hdom.
    by apply not_elem_of_dom.
Qed.

(** *** Forward passes *)

Lemma keeps_log_ret {A} (a : A) : keeps_log (ret a).
Proof. by intros w. Qed.

Lemma keeps_log_lift {A} (r : result A) : keeps_log (lift r).
Proof. by intros w. Qed.

Lemma keeps_log_bind {A B} (c : M A) (k : A → M B) :
  keeps_log c → (∀ a, keeps_log (k a)) → keeps_log (bind c k).
Proof.
  intros Hc Hk w. unfold bind. specialize (Hc w).
  destruct (c w) as [w' [a|e]]; simpl in *; [|done]. by rewrite Hk.
Qed.

Lemma keeps_log_for_each {A} (l : list A) (body : A → M unit) :
  (∀ x, keeps_log (body x)) → keeps_log (for_each l body).
Proof.
  intros Hb. induction l as [|x l IH]; simpl; [apply keeps_log_ret|].
  apply keeps_log_bind; [apply Hb|done].
Qed.

Lemma keeps_log_fire block out : keeps_log (fire block out).
Proof.
  intros w. unfold fire. apply (keeps_log_for_each (fwd_hooks w)). intros e.
  case_decide; [by destruct out|apply keeps_log_ret].
Qed.

Lemma keeps_log_attach layers : keeps_log (attach layers).
Proof.
  induction layers as [|layer layers IH]; simpl; [apply keeps_log_ret|].
  apply keeps_log_bind; [by intros w|]. intros hook.
  apply keeps_log_bind; [apply keeps_log_lift|]. intros block.
  apply keeps_log_bind; [by intros w|]. intros handle.
  apply keeps_log_bind; [done|]. intros [hooks handles]. apply keeps_log_ret.
Qed.

Lemma keeps_log_read_hooks pairs acts : keeps_log (read_hooks pairs acts).
Proof.
  revert acts. induction pairs as [|[layer hook] ps IH]; intros acts; simpl.
  - apply keeps_log_ret.
  - apply keeps_log_bind; [|done]. unfold append_act.
    destruct (acts !! layer); [|apply keeps_log_lift].
    apply keeps_log_bind; [by intros w|]. intros; apply keeps_log_ret.
Qed.

(** A forward pass is recorded once, also when a block or the head raises. *)
Lemma model_call_log (input_ids : Tokens) w :
  forward_log (model_call input_ids w).1 = forward_log w ++ [input_ids].
Proof.
  unfold model_call. run_prim.
  match goal with |- forward_log (bind ?c ?k ?w1).1 = _ =>
    change (forward_log w ++ [input_ids]) with (forward_log w1);
    apply (keeps_log_bind c k)
  end.
  - apply keeps_log_for_each. intros k.
    apply keeps_log_bind; [apply keeps_log_lift|]. intros out. apply keeps_log_fire.
  - intros _. apply keeps_log_lift.
Qed.

Lemma collect_log (statements : list string) layers hooks acts w :
  ∃ k ids, k ≤ length statements
    ∧ forward_log (collect statements layers hooks acts w).1 = forward_log w ++ ids
    ∧ Ok <$> ids = encode <$> take k statements
    ∧ (is_ok (collect statements layers hooks acts w).2 → k = length statements).
Proof.
  revert acts w. induction statements as [|s ss IH]; intros acts w.
  - exists 0, []. simpl. by rewrite app_nil_r.
  - simpl collect. destruct (encode s) as [ids|e] eqn:Henc.
    + erewrite bind_lift_ok by reflexivity.
      pose proof (model_call_log ids w) as Hlog.
      destruct (model_call ids w) as [w1 [lg|e]] eqn:Hcall; simpl in Hlog.
      * run_ok Hcall.
        pose proof (keeps_log_read_hooks (zip layers hooks) acts w1) as Hread.
        destruct (read_hooks (zip layers hooks) acts w1) as [w2 [acts1|e]] eqn:Hrd;
          simpl in Hread.
        -- run_ok Hrd.
           destruct (IH acts1 w2) as (k & ids' & Hk & Hlog' & Hids & Hall).
           exists (S k), (ids :: ids'). split; [simpl; lia|].
           split; [by rewrite Hlog', Hread, Hlog, <- app_assoc|].
           split; [by rewrite firstn_cons, !fmap_cons, Henc, Hids|].
           intros Hok. simpl. f_equal. by apply Hall.
        -- erewrite bind_raise by exact Hrd.
           exists 1, [ids]. split; [simpl; lia|].
           split; [simpl; congruence|]. split; [|done].
           by rewrite firstn_cons, take_0, !fmap_cons, Henc.
      * erewrite bind_raise by exact Hcall.
        exists 1, [ids]. split; [simpl; lia|]. split; [done|]. split; [|done].
        by rewrite firstn_cons, take_0, !fmap_cons, Henc.
    + erewrite bind_lift_raise by reflexivity.
      exists 0, []. simpl. split; [lia|]. by rewrite app_nil_r.
Qed.

Lemma get_acts_log (statements : list string) (layers : list Z) w :
  ∃ k ids, k ≤ length statements
    ∧ forward_log (get_acts statements layers w).1 = forward_log w ++ ids
    ∧ Ok <$> ids = encode <$> take k statements
    ∧ (is_ok (get_acts statements layers w).2 → k = length statements).
Proof.
  unfold get_acts.
  pose proof (keeps_log_attach layers w) as Hatt.
  destruct (attach layers w) as [w1 [[hooks handles]|e]] eqn:Hrun; simpl in Hatt.
  - run_ok Hrun. cbv beta iota.
    destruct (collect_log statements layers hooks (acts_init layers) w1)
      as (k & ids & Hk & Hlog & Hids & Hall).
    exists k, ids. split; [done|]. rewrite Hatt in Hlog.
    destruct (collect statements layers hooks (acts_init layers) w1)
      as [w2 [acts|e]] eqn:Hcol; simpl in *.
    + run_ok Hcol. destruct (stack_all acts) as [stacked|e].
      * erewrite bind_lift_ok by reflexivity.
        destruct (remove_all_ok handles w2) as (w3 & Hrem & _ & _ & _ & _ & Hlog3).
        run_ok Hrem. simpl. split; [congruence|]. split; [done|].
        intros _. by apply Hall.
      * erewrite bind_lift_raise by reflexivity. done.
    + erewrite bind_raise by exact Hcol. done.
  - erewrite bind_raise by exact Hrun.
    exists 0, []. simpl. split; [lia|]. by rewrite app_nil_r.
Qed.

(** X6: in every outcome, [get_acts] has run the model on the first
    [k] statements, once each and in input order, and on nothing else;
    when it returns normally [k] is the number of statements. *)
Theorem get_acts_runs_model_on_a_prefix (statements : list string) (layers : list Z) w :
  ∃ k ids, k ≤ length statements
    ∧ forward_log (get_acts statements layers w).1 = forward_log w ++ ids
    ∧ Ok <$> ids = encode <$> take k statements
    ∧ (is_ok (get_acts statements layers w).2 → k = length statements).
Proof.
  apply get_acts_log.
Qed.

(** *** A layer subscript outside the block list *)

Lemma attach_invalid (good : list Z) (bad : Z) (rest : list Z) w :
  Forall (λ layer, (- Z.of_nat num_layers ≤ layer < Z.of_nat num_layers)%Z) good →
  ¬ (- Z.of_nat num_layers ≤ bad < Z.of_nat num_layers)%Z →
  ∃ w', attach (good ++ bad :: rest) w = (w', Raise IndexError)
    ∧ fwd_hooks w'
      = fwd_hooks w
        ++ imap (λ j layer, mkEntry (next_id w + j) (block_of layer) (next_hook w + j)) good
    ∧ forward_log w' = forward_log w.
Proof.
  intros Hgood Hbad. revert w. induction Hgood as [|layer good Hl Hgood IH]; intros w.
  - simpl attach. run_prim.
    assert (layers_getitem bad = Raise IndexError) as Hget.
    { unfold layers_getitem, py_index. repeat case_decide; try done; lia. }
    erewrite bind_lift_raise by exact Hget.
    eexists. split; [done|]. simpl. by rewrite app_nil_r.
  - destruct (layers_getitem_block_of layer Hl) as [Hb _].
    simpl attach. run_prim. run_lift Hb. run_prim.
    match goal with |- context [bind (attach _) _ ?w1] =>
      destruct (IH w1) as (w' & Hrun & Hh & Hlog) end.
    simpl in *. exists w'. erewrite bind_raise by exact Hrun.
    split; [done|]. rewrite Hh, Hlog, <- app_assoc. simpl. split; [|done].
    do 2 f_equal; [f_equal; lia|].
    apply imap_ext. intros j x _. simpl. f_equal; lia.
Qed.

(** X7: when the layer list holds a subscript outside [-n, n), [get_acts]
    raises [IndexError] before the model is run on anything, and the
    hooks it registered for the layers in front of that subscript are
    left in the table. *)
Theorem get_acts_invalid_layer_raises (statements : list string)
    (good : list Z) (bad : Z) (rest : list Z) w :
  Forall (λ layer, (- Z.of_nat num_layers ≤ layer < Z.of_nat num_layers)%Z) good →
  ¬ (- Z.of_nat num_layers ≤ bad < Z.of_nat num_layers)%Z →
  ∃ w', get_acts statements (good ++ bad :: rest) w = (w', Raise IndexError)
    ∧ hook_count w' = hook_count w + length good
    ∧ forward_log w' = forward_log w.
Proof.
  intros Hgood Hbad.
  destruct (attach_invalid good bad rest w Hgood Hbad) as (w' & Hatt & Hh & Hlog).
  exists w'. unfold get_acts. erewrite bind_raise by exact Hatt.
  split; [done|]. split; [|done].
  unfold hook_count. by rewrite Hh, length_app, length_imap.
Qed.

(** *** The sentinel, end to end *)

Lemma replicate_one_concat {A} (l : list A) : concat (replicate 1 <$> l) = l.
Proof. induction l as [|x l IH]; [done|]. rewrite fmap_cons, concat_cons, IH. done. Qed.

(** X8: with the layer list [-1] and statements that run, [get_acts]
    on the resolved list returns one tensor per transformer block, keyed
    [0 .. num_layers - 1]; the tensor of block [k] has one row per
    statement, row [i] being the vector at the last position of the
    first batch entry of the output of block [k] on the tokens of
    statement [i]. *)
Theorem get_acts_on_sentinel_covers_every_block (statements : list string) w :
  statements ≠ [] →
  Forall (λ s, runs_ok s) statements →
  wf_world w →
  ∃ w' acts, get_acts statements (resolve_layers [(-1)%Z]) w = (w', Ok acts)
    ∧ size acts = num_layers
    ∧ ∀ k, k < num_layers →
        ∃ t, acts !! Z.of_nat k = Some t
          ∧ length (s_rows t) = length statements
          ∧ ∀ i statement, statements !! i = Some statement →
              ∃ input_ids h aux positions others v,
                encode statement = Ok input_ids
                ∧ block_fwd k input_ids = Ok (h, aux)
                ∧ h_data h = positions :: others
                ∧ positions !! (length positions - 1) = Some v
                ∧ s_rows t !! i = Some v.
Proof.
  intros Hne Hruns Hwf.
  assert (resolve_layers [(-1)%Z] = Z.of_nat <$> seq 0 num_layers) as ->.
  { unfold resolve_layers. rewrite decide_True by done. by rewrite py_range_unit. }
  assert (NoDup (Z.of_nat <$> seq 0 num_layers)) as Hnd.
  { apply (NoDup_fmap_2 Z.of_nat), NoDup_seq. }
  destruct (get_acts_run statements (Z.of_nat <$> seq 0 num_layers) w)
    as (w' & acts & ids & Hrun & _ & _ & _ & _ & _ & Hdom & Hrows); try done.
  { apply Forall_fmap, Forall_forall. intros k Hk%elem_of_seq. simpl. lia. }
  { by left. }
  exists w', acts. split; [done|]. split.
  { rewrite <- size_dom, Hdom, size_list_to_set by done.
    by rewrite length_fmap, length_seq. }
  intros k Hk.
  assert (Z.of_nat k ∈ Z.of_nat <$> seq 0 num_layers) as Hin.
  { apply list_elem_of_fmap_2, elem_of_seq. lia. }
  assert (is_Some (acts !! Z.of_nat k)) as [t Ht].
  { apply elem_of_dom. rewrite Hdom. by apply elem_of_list_to_set. }
  destruct (Hrows _ t Ht) as (_ & l & Hl & Heq).
  unfold expected_acts in Heq.
  rewrite (occurrences_NoDup _ _ Hnd Hin), replicate_one_concat in Heq.
  exists t. split; [done|]. rewrite Hl, length_fmap.
  split; [by eapply fmap_Ok_length|].
  intros i statement Hi.
  destruct (fmap_Ok_lookup _ _ _ _ _ Heq Hi) as (a & Ha & Hla).
  destruct (last_token_act_position (Z.of_nat k) statement a ltac:(lia) Ha)
    as (ids' & h & aux & positions & others & Henc & Hblock & Hdata & Hpos).
  rewrite Z.mod_small, Nat2Z.id in Hblock by lia.
  exists ids', h, aux, positions, others, (a_vec a).
  split_and!; try done. by rewrite list_lookup_fmap, Hla.
Qed.

(** *** The driver *)

Lemma evaluate_loop_head_error (statement : string) (rest : list string)
    (correct_answers incorrect_answers : list string) (labels : list Label) w :
  evaluate_loop (statement :: rest) correct_answers incorrect_answers labels w
  = (w, Raise (if decide (String.length statement = 2) then TypeError
               else ValueError)).
Proof.
  simpl evaluate_loop.
  pose proof (unpack2_by_length statement) as Hunpack.
  destruct (decide (String.length statement = 2)) as [Hlen|Hlen].
  - destruct Hunpack as (i & s & Hunpack).
    run_lift Hunpack. cbv beta iota.
    erewrite bind_raise; [done|]. unfold evaluate_body.
    by erewrite bind_lift_raise by reflexivity.
  - by erewrite bind_lift_raise by exact Hunpack.
Qed.

(** X9: the driver returns normally exactly when the dataset is empty,
    and then it has done nothing: no hook was registered, the model was
    not run and nothing is saved.  On any non-empty dataset it raises
    in its first iteration, so no activation file is ever written. *)
Theorem driver_returns_only_on_empty_dataset (arg_layers : list Z)
    (statements correct_answer incorrect_answers : list string) w :
  (is_ok (main_dataset arg_layers statements correct_answer incorrect_answers w).2
   ↔ statements = [])
  ∧ (statements = [] →
     main_dataset arg_layers statements correct_answer incorrect_answers w
     = (w, Ok [])).
Proof.
  split; [split|].
  - intros Hok. destruct statements as [|s ss]; [done|].
    destruct (main_dataset_raises arg_layers (s :: ss) correct_answer
                incorrect_answers w) as (w' & e & Hrun); [done|].
    by rewrite Hrun in Hok.
  - by intros ->.
  - by intros ->.
Qed.

(** X10: on a non-empty dataset whose first chunk runs through the
    model, the driver computes that chunk's activations and then loses
    them: [evaluate] raises ([TypeError] when the first statement has
    exactly two characters, [ValueError] otherwise) before line 134 saves
    anything.  By then the model has been run once on each statement of
    the first chunk and on nothing else, and the hooks are removed. *)
Theorem driver_loses_first_chunk (arg_layers : list Z) (statement : string)
    (rest correct_answer incorrect_answers : list string) w :
  Forall (λ layer, (- Z.of_nat num_layers ≤ layer < Z.of_nat num_layers)%Z)
         (resolve_layers arg_layers) →
  Forall (λ s, runs_ok s) (take 25 (statement :: rest)) →
  wf_world w →
  ∃ w' ids,
    main_dataset arg_layers (statement :: rest) correct_answer incorrect_answers w
    = (w', Raise (if decide (String.length statement = 2) then TypeError
                  else ValueError))
    ∧ fwd_hooks w' = fwd_hooks w
    ∧ forward_log w' = forward_log w ++ ids
    ∧ Ok <$> ids = encode <$> take 25 (statement :: rest).
Proof.
  intros Hvalid Hruns Hwf.
  destruct (get_acts_run (take 25 (statement :: rest)) (resolve_layers arg_layers) w)
    as (w' & acts & ids & Hrun & Htable & _ & _ & Hlog & Hids & _); try done.
  { by left. }
  exists w', ids. split; [|done].
  unfold main_dataset, main_chunks.
  rewrite py_range_step_0 by (simpl; lia).
  replace ((length (statement :: rest) - 1) `div` 25 + 1)
    with (S ((length (statement :: rest) - 1) `div` 25)) by lia.
  rewrite <- cons_seq, fmap_cons. simpl map_m.
  erewrite bind_raise; [done|]. erewrite bind_raise; [done|].
  unfold process_chunk, chunk_at, py_slice.
  replace (0 * 25 + 25 - 0 * 25) with 25 by lia.
  change (drop (0 * 25) (statement :: rest)) with (statement :: rest).
  run_ok Hrun. erewrite bind_raise; [done|].
  unfold evaluate.
  change (take 25 (statement :: rest)) with (statement :: take 24 rest).
  apply evaluate_loop_head_error.
Qed.

Lemma process_chunk_state (layers : list Z)
    (statements correct_answer incorrect_answers : list string) (idx : nat) w :
  idx < length statements →
  ∃ e, process_chunk layers statements correct_answer incorrect_answers idx w
       = ((get_acts (py_slice statements idx (idx + 25)) layers w).1, Raise e).
Proof.
  intros Hidx. unfold process_chunk, chunk_at.
  destruct (get_acts (py_slice statements idx (idx + 25)) layers w)
    as [w1 [acts|e]] eqn:Hacts.
  - run_ok Hacts.
    assert (∃ s rest, py_slice statements idx (idx + 25) = s :: rest) as (s & rest & ->).
    { unfold py_slice. replace (idx + 25 - idx) with 25 by lia.
      destruct (drop idx statements) as [|s rest] eqn:Hdrop.
      - apply (f_equal length) in Hdrop. rewrite length_drop in Hdrop.
        simpl in Hdrop. lia.
      - by eexists _, _. }
    destruct (evaluate_loop_raises s rest
                (py_slice correct_answer idx (idx + 25))
                (py_slice incorrect_answers idx (idx + 25))
                (replicate (length (s :: rest)) (LInt 0)) w1) as (e & Hev).
    exists e. by erewrite bind_raise by exact Hev.
  - exists e. by erewrite bind_raise by exact Hacts.
Qed.

(** C6 (what the code does instead): on every non-empty dataset the
    loop of line 127 ends in its first iteration: the driver raises, and
    by then the model has been run on [k] statements from the start of
    the list, [k] at most 25, and on nothing else.  The slices from
    offset 25 on are never taken, so a dataset of more than 25
    statements is not divided into ceil(N/25) chunks, and no chunk
    output exists to be concatenated. *)
Theorem driver_stops_in_first_chunk (arg_layers : list Z) (statement : string)
    (rest correct_answer incorrect_answers : list string) w :
  ∃ w' e k ids,
    main_dataset arg_layers (statement :: rest) correct_answer incorrect_answers w
    = (w', Raise e)
    ∧ k ≤ 25
    ∧ forward_log w' = forward_log w ++ ids
    ∧ Ok <$> ids = encode <$> take k (statement :: rest).
Proof.
  destruct (process_chunk_state (resolve_layers arg_layers) (statement :: rest)
              correct_answer incorrect_answers (0 * 25) w) as (e & Hrun);
    [simpl; lia|].
  destruct (get_acts_log (py_slice (statement :: rest) (0 * 25) (0 * 25 + 25))
              (resolve_layers arg_layers) w) as (k & ids & Hk & Hlog & Hids & _).
  unfold py_slice in Hk, Hids.
  replace (0 * 25 + 25 - 0 * 25) with 25 in Hk, Hids by lia.
  change (drop (0 * 25) (statement :: rest)) with (statement :: rest) in Hk, Hids.
  rewrite length_take in Hk. rewrite take_take in Hids.
  replace (k `min` 25) with k in Hids by lia.
  eexists _, e, k, ids. split; [|split; [lia|done]].
  unfold main_dataset, main_chunks.
  rewrite py_range_step_0 by (simpl; lia).
  replace ((length (statement :: rest) - 1) `div` 25 + 1)
    with (S ((length (statement :: rest) - 1) `div` 25)) by lia.
  rewrite <- cons_seq, fmap_cons. simpl map_m.
  erewrite bind_raise; [done|]. by erewrite bind_raise by exact Hrun.
Qed.

(** *** Scores and labels *)

Lemma score_probs_scores_ok (text : string) w :
  scores_ok text →
  ∃ w' input_ids p,
    encode text = Ok input_ids
    ∧ score_probs text w = (w', Ok p)
    ∧ (∀ w0, (score_probs text w0).2 = Ok p)
    ∧ same_model w w'
    ∧ forward_log w' = forward_log w ++ [input_ids].
Proof.
  unfold scores_ok. intros Hok.
  destruct (encode text) as [ids|] eqn:Henc; [|done].
  apply andb_True in Hok as [Hfwd _].
  destruct (score_probs_run text ids w Henc Hfwd) as (w' & lg & Hlg & Hrun & Hm & Hlog).
  exists w', ids, (t_sum (softmax_last lg)). split_and!; try done.
  intros w0.
  destruct (score_probs_run text ids w0 Henc Hfwd) as (w0' & lg0 & Hlg0 & Hrun0 & _).
  rewrite Hrun0. simpl. congruence.
Qed.

Lemma map_m_score_probs (texts : list string) w :
  Forall (λ text, scores_ok text) texts →
  ∃ w' ids ps,
    map_m score_probs texts w = (w', Ok ps)
    ∧ Forall2 (λ text p, ∀ w0, (score_probs text w0).2 = Ok p) texts ps
    ∧ same_model w w'
    ∧ forward_log w' = forward_log w ++ ids
    ∧ Ok <$> ids = encode <$> texts.
Proof.
  intros Hok. revert w. induction Hok as [|text texts Ht Hts IH]; intros w.
  - exists w, [], []. split; [done|]. split; [done|].
    split; [apply same_model_refl|]. by rewrite app_nil_r.
  - destruct (score_probs_scores_ok text w Ht)
      as (w1 & ids1 & p & Henc & Hrun1 & Hp & Hm1 & Hlog1).
    destruct (IH w1) as (w' & ids & ps & Hrun & Hps & Hm & Hlog & Hids).
    exists w', (ids1 :: ids), (p :: ps). simpl map_m. run_ok Hrun1. run_ok Hrun.
    split; [done|]. split; [by constructor|].
    split; [by eapply same_model_trans|].
    split; [by rewrite Hlog, Hlog1, <- app_assoc|].
    by rewrite !fmap_cons, Henc, Hids.
Qed.

(** X11: with an integer loop index, a non-empty [incorrect_answers]
    and texts that the model scores, lines 89-96 run the model once on
    the correct concatenation and then once on the concatenation of the
    statement with every cell of the whole [incorrect_answers] list, in
    list order, and store at position [i] of [labels] the comparison
    [correct_prob > max(incorrect_probs)] of the scores [score_probs]
    gives those texts; the other labels, the hook table and the
    counters are left alone. *)
Theorem evaluate_body_scores_every_cell (i : Z) (k : nat) (statement answer : string)
    (correct_answers incorrect_answers : list string) (labels : list Label) w :
  list_getitem correct_answers (PInt i) = Ok answer →
  py_index (length labels) i = Ok k →
  incorrect_answers ≠ [] →
  scores_ok (statement +:+ " " +:+ answer) →
  Forall (λ incorrect, scores_ok (statement +:+ " " +:+ incorrect)) incorrect_answers →
  ∃ w' ids correct_prob incorrect_probs top,
    evaluate_body (PInt i) statement correct_answers incorrect_answers labels w
    = (w', Ok (<[k := LBool (float_gt correct_prob top)]> labels))
    ∧ (∀ w0, (score_probs (statement +:+ " " +:+ answer) w0).2 = Ok correct_prob)
    ∧ Forall2 (λ incorrect p,
                 ∀ w0, (score_probs (statement +:+ " " +:+ incorrect) w0).2 = Ok p)
              incorrect_answers incorrect_probs
    ∧ py_max incorrect_probs = Ok top
    ∧ same_model w w'
    ∧ forward_log w' = forward_log w ++ ids
    ∧ Ok <$> ids
      = encode <$> (statement +:+ " " +:+ answer)
                   :: ((λ incorrect, statement +:+ " " +:+ incorrect)
                         <$> incorrect_answers).
Proof.
  intros Hanswer Hk Hne Hcorrect Hincorrect.
  destruct (score_probs_scores_ok _ w Hcorrect)
    as (w1 & ids1 & c & Henc & Hrun1 & Hc & Hm1 & Hlog1).
  destruct (map_m_score_probs
              ((λ incorrect, statement +:+ " " +:+ incorrect) <$> incorrect_answers) w1)
    as (w' & ids & ps & Hrun & Hps & Hm & Hlog & Hids).
  { by apply Forall_fmap. }
  apply Forall2_fmap_l in Hps.
  assert (∃ top, py_max ps = Ok top) as [top Htop].
  { destruct Hps; [done|]. by eexists. }
  exists w', (ids1 :: ids), c, ps, top. split.
  { unfold evaluate_body. run_lift Hanswer. run_ok Hrun1. run_ok Hrun.
    run_lift Htop. unfold lift, list_setitem. by rewrite Hk. }
  split; [done|]. split; [done|]. split; [done|].
  split; [by eapply same_model_trans|].
  split; [by rewrite Hlog, Hlog1, <- app_assoc|].
  by rewrite !fmap_cons, Henc, Hids.
Qed.

(** X12: with an integer loop index and no incorrect answer, lines
    89-96 score the correct concatenation, running the model once, and
    then raise [ValueError]: [max] of an empty list. *)
Theorem evaluate_body_without_incorrect_raises (i : Z) (statement answer : string)
    (correct_answers : list string) (labels : list Label) w :
  list_getitem correct_answers (PInt i) = Ok answer →
  scores_ok (statement +:+ " " +:+ answer) →
  ∃ w', evaluate_body (PInt i) statement correct_answers [] labels w
        = (w', Raise ValueError)
    ∧ same_model w w'
    ∧ forward_calls w' = forward_calls w + 1.
Proof.
  intros Hanswer Hcorrect.
  destruct (score_probs_scores_ok _ w Hcorrect)
    as (w1 & ids1 & c & Henc & Hrun1 & _ & Hm1 & Hlog1).
  exists w1. split; [|split; [done|unfold forward_calls; by rewrite Hlog1, length_app]].
  unfold evaluate_body. run_lift Hanswer. run_ok Hrun1.
  simpl map_m. run_prim. by erewrite bind_lift_raise by reflexivity.
Qed.

(** *** Names of the saved files *)

Lemma pretty_N_char_digit (x : N) : digit_or_minus (pretty_N_char x).
Proof. unfold pretty_N_char. by repeat case_match. Qed.

Lemma pretty_N_go_chars (x : N) (s : string) :
  string_forall digit_or_minus s → string_forall digit_or_minus (pretty_N_go x s).
Proof.
  revert s. induction (N.lt_wf_0 x) as [x _ IH]; intros s Hs.
  assert (x = 0 ∨ 0 < x)%N as [->|Hx] by lia.
  - by rewrite pretty_N_go_0.
  - rewrite pretty_N_go_step by done. apply IH; [by apply N.div_lt|].
    simpl. apply andb_True. split; [apply pretty_N_char_digit|done].
Qed.

Lemma pretty_N_chars (x : N) : string_forall digit_or_minus (pretty x).
Proof.
  unfold pretty, pretty_N. case_decide; [done|]. by apply pretty_N_go_chars.
Qed.

Lemma pretty_Z_chars (z : Z) : string_forall digit_or_minus (pretty z).
Proof.
  destruct z as [|p|p]; [done|apply pretty_N_chars|].
  unfold pretty, pretty_Z. simpl. apply (pretty_N_chars (N.pos p)).
Qed.

Lemma pretty_nat_chars (n : nat) : string_forall digit_or_minus (pretty n).
Proof. apply pretty_N_chars. Qed.

(** Two strings cut at a separator that neither prefix contains. *)
Lemma split_at_separator (p : Ascii.ascii → bool) (c : Ascii.ascii) (a1 a2 b1 b2 : string) :
  p c = false →
  string_forall p a1 → string_forall p a2 →
  a1 +:+ String c b1 = a2 +:+ String c b2 →
  a1 = a2 ∧ b1 = b2.
Proof.
  intros Hc. revert a2. induction a1 as [|x a1 IH]; intros [|y a2] H1 H2 Heq;
    simpl in *.
  - by injection Heq as ->.
  - injection Heq as <- _. apply andb_True in H2 as [Hy _].
    rewrite Hc in Hy. done.
  - injection Heq as -> _. apply andb_True in H1 as [Hx _].
    rewrite Hc in Hx. done.
  - injection Heq as -> Heq.
    apply andb_True in H1 as [_ H1]. apply andb_True in H2 as [_ H2].
    destruct (IH a2 H1 H2 Heq) as [-> ->]. done.
Qed.

(** X13: the name under which line 134 saves a tensor determines the
    layer and the chunk offset: in one directory two different (layer,
    offset) pairs never share a file. *)
Theorem save_path_determines_layer_and_offset (dir : string) (layer1 layer2 : Z)
    (idx1 idx2 : nat) :
  save_path dir layer1 idx1 = save_path dir layer2 idx2 →
  layer1 = layer2 ∧ idx1 = idx2.
Proof.
  unfold save_path. intros Heq.
  apply (inj (String.append dir)) in Heq.
  apply (inj (String.append "/layer_")) in Heq.
  apply (split_at_separator digit_or_minus "_"%char) in Heq as [Hl Heq];
    [|done|apply pretty_Z_chars..].
  apply (split_at_separator digit_or_minus "."%char _ _ "pt" "pt") in Heq as [Hi _];
    [|done|apply pretty_nat_chars..].
  split; [by apply (inj pretty)|by apply (inj pretty)].
Qed.

(** X14: in every outcome [score_probs] leaves the hook table and the
    counters alone and runs the model at most once: exactly once, on
    the tokenized text, when the tokenizer accepts the text (also when
    the forward pass then raises), and not at all when it does not. *)
Theorem score_probs_in_every_outcome (text : string) w :
  same_model w (score_probs text w).1
  ∧ forward_log (score_probs text w).1
    = forward_log w ++ match encode text with
                       | Ok input_ids => [input_ids]
                       | Raise _ => []
                       end
  ∧ (is_ok (score_probs text w).2 → is_ok (encode text)).
Proof.
  split; [apply keeps_score_probs|].
  unfold score_probs. destruct (encode text) as [ids|e].
  - erewrite bind_lift_ok by reflexivity. split; [|done].
    pose proof (model_call_log ids w) as Hlog.
    destruct (model_call ids w) as [w1 [lg|e]] eqn:Hcall; simpl in Hlog.
    + by run_ok Hcall.
    + by erewrite bind_raise by exact Hcall.
  - erewrite bind_lift_raise by reflexivity. simpl. by rewrite app_nil_r.
Qed.
End GenerateActs.

(** ** The theorems at work on the toy runtime *)

Module Examples.

Abbreviation toy_get_acts :=
  (get_acts Toy.num_layers Toy.encode Toy.block_fwd Toy.lm_head).
Abbreviation toy_evaluate :=
  (evaluate Toy.num_layers Toy.encode Toy.block_fwd Toy.lm_head
            Toy.softmax_row Toy.float_sum Toy.float_gt).
Abbreviation toy_evaluate_body :=
  (evaluate_body Toy.num_layers Toy.encode Toy.block_fwd Toy.lm_head
                 Toy.softmax_row Toy.float_sum Toy.float_gt).
Abbreviation toy_main :=
  (main_dataset Toy.num_layers Toy.encode Toy.block_fwd Toy.lm_head
                Toy.softmax_row Toy.float_sum Toy.float_gt).

(** The Python primitives on small inputs. *)
Example py_range_by_25 :
  py_range 0 51 25 = [0; 25; 50] ∧ py_range 0 50 25 = [0; 25] ∧ py_range 0 0 25 = [].
Proof. by repeat split. Qed.

Example py_slice_clamps : py_slice [1; 2; 3] 2 27 = [3] ∧ py_slice [1; 2; 3] 5 30 = [].
Proof. by split. Qed.

Example py_index_negative :
  py_index 3 (-1) = Ok 2 ∧ py_index 3 3 = Raise IndexError
  ∧ py_index 3 (-4) = Raise IndexError.
Proof. by repeat split. Qed.

Example unpack2_strings :
  unpack2 "ab" = Ok ("a", "b") ∧ unpack2 "abc" = Raise ValueError
  ∧ unpack2 "a" = Raise ValueError.
Proof. by repeat split. Qed.

Example list_getitem_str_subscript :
  list_getitem ["blue"; "4"] (PStr "a") = Raise TypeError
  ∧ list_getitem ["blue"; "4"] (PInt (-1)) = Ok "4".
Proof. by split. Qed.

(** Two statements, layers 0 and 2: the rows are the last positions of
    blocks 0 and 2 on each statement. *)
Example get_acts_two_statements :
  (toy_get_acts ["ab"; "cde"] [0%Z; 2%Z] Toy.world0).2
  = Ok {[ 0%Z := mkStacked Float32 [2; 3]; 2%Z := mkStacked Float32 [4; 5] ]}.
Proof. vm_compute. reflexivity. Qed.

(** A layer requested twice has two Hooks on its block and one key in
    the dictionary, so its tensor holds two rows per statement. *)
Example get_acts_repeated_layer :
  (toy_get_acts ["ab"] [0%Z; 0%Z] Toy.world0).2
  = Ok {[ 0%Z := mkStacked Float32 [2; 2] ]}.
Proof. vm_compute. reflexivity. Qed.

(** C2, the claim as stated fails: the tokenizer raises on the second
    statement and the two hooks are still registered afterwards. *)
Lemma get_acts_leaves_hooks_on_error :
  ∃ w', toy_get_acts ["ab"; "boom"] [0%Z; 2%Z] Toy.world0 = (w', Raise ValueError)
        ∧ hook_count Toy.world0 = 0
        ∧ hook_count w' = 2.
Proof. eexists. split; [vm_compute; reflexivity|]. split; reflexivity. Qed.

(** C4 (what the code does instead): on statement strings [evaluate]
    raises before any concatenation is scored, the model is never run;
    and the loop body, run with an integer subscript, scores the
    statement against the incorrect-answer cell of every row of the
    chunk, not only against the answers of its own row. *)
Theorem evaluate_scores_no_own_concatenation :
  toy_evaluate ["The sky is"; "ab"] ["blue"; "c"] ["green"; "d"] Toy.world0
  = (Toy.world0, Raise ValueError)
  ∧ toy_evaluate ["ab"; "The sky is"] ["c"; "blue"] ["d"; "green"] Toy.world0
    = (Toy.world0, Raise TypeError)
  ∧ forward_log
      (toy_evaluate_body (PInt 0) "s0" ["c0"; "c1"] ["x0"; "x1"]
                         [LInt 0; LInt 0] Toy.world0).1
    = ["s0 c0"; "s0 x0"; "s0 x1"].
Proof. split; [reflexivity|]. split; reflexivity. Qed.

Lemma toy_world0_wf : wf_world Toy.world0.
Proof. constructor. Qed.

(** C3 at two statements and layers 0 and 2. *)
Lemma get_acts_returns_last_token_rows_witness :
  ∃ w' acts, toy_get_acts ["ab"; "cde"] [0%Z; 2%Z] Toy.world0 = (w', Ok acts)
    ∧ dom acts = list_to_set [0%Z; 2%Z]
    ∧ ∀ layer, layer ∈ [0%Z; 2%Z] →
        ∃ t, acts !! layer = Some t
          ∧ s_dtype t = Float32
          ∧ length (s_rows t) = length ["ab"; "cde"]
          ∧ ∀ i statement, ["ab"; "cde"] !! i = Some statement →
              ∃ input_ids h aux positions others v,
                Toy.encode statement = Ok input_ids
                ∧ Toy.block_fwd (Z.to_nat (layer `mod` Z.of_nat Toy.num_layers))
                                input_ids = Ok (h, aux)
                ∧ h_data h = positions :: others
                ∧ positions !! (length positions - 1) = Some v
                ∧ s_rows t !! i = Some v.
Proof.
  apply (get_acts_returns_last_token_rows
           Toy.num_layers Toy.encode Toy.block_fwd Toy.lm_head
           ["ab"; "cde"] [0%Z; 2%Z] Toy.world0).
  - discriminate.
  - apply (bool_decide_unpack (NoDup [0%Z; 2%Z])). vm_compute. exact I.
  - repeat constructor; vm_compute; congruence.
  - repeat constructor.
  - exact toy_world0_wf.
Defined.

(** C2 (as amended) on a batch whose second statement cannot be tokenized. *)
Lemma get_acts_hook_count_witness :
  ∃ w1 hooks handles,
    attach Toy.num_layers [0%Z; 2%Z] Toy.world0 = (w1, Ok (hooks, handles))
    ∧ hook_count w1 = hook_count Toy.world0 + length [0%Z; 2%Z]
    ∧ (∀ k, hook_count
              (collect Toy.num_layers Toy.encode Toy.block_fwd Toy.lm_head
                 (take k ["ab"; "boom"]) [0%Z; 2%Z] hooks
                 (acts_init [0%Z; 2%Z]) w1).1
            = hook_count Toy.world0 + length [0%Z; 2%Z])
    ∧ match toy_get_acts ["ab"; "boom"] [0%Z; 2%Z] Toy.world0 with
      | (w', Ok _) => fwd_hooks w' = fwd_hooks Toy.world0
      | (w', Raise _) => hook_count w' = hook_count Toy.world0 + length [0%Z; 2%Z]
      end.
Proof.
  apply (get_acts_hook_count
           Toy.num_layers Toy.encode Toy.block_fwd Toy.lm_head
           ["ab"; "boom"] [0%Z; 2%Z] Toy.world0).
  - exact toy_world0_wf.
  - repeat constructor; vm_compute; congruence.
Defined.

(** C10 at one layer. *)
Lemma get_acts_no_statement_raises_witness :
  (∃ w' e, toy_get_acts [] [0%Z] Toy.world0 = (w', Raise e))
  ∧ (Forall (λ layer, (- Z.of_nat Toy.num_layers ≤ layer < Z.of_nat Toy.num_layers)%Z)
            [0%Z] →
     ∃ w', toy_get_acts [] [0%Z] Toy.world0 = (w', Raise RuntimeError)).
Proof.
  apply (get_acts_no_statement_raises
           Toy.num_layers Toy.encode Toy.block_fwd Toy.lm_head [0%Z] Toy.world0).
  discriminate.
Defined.

(** C5 on one text. *)
Lemma score_probs_sums_softmax_witness :
  ∃ w' probs,
    score_probs Toy.num_layers Toy.encode Toy.block_fwd Toy.lm_head
      Toy.softmax_row Toy.float_sum "ab" Toy.world0
    = (w', Ok (Toy.float_sum (concat (concat probs))))
    ∧ length probs = length [[[0; 1]]]
    ∧ (∀ b batch, [[[0; 1]]] !! b = Some batch →
         ∃ pbatch, probs !! b = Some pbatch
           ∧ length pbatch = length batch
           ∧ ∀ p row, batch !! p = Some row →
               pbatch !! p = Some (Toy.softmax_row row))
    ∧ forward_log w' = forward_log Toy.world0 ++ ["ab"]
    ∧ forward_calls w' = forward_calls Toy.world0 + 1
    ∧ same_model Toy.world0 w'.
Proof.
  apply (score_probs_sums_softmax
           Toy.num_layers Toy.encode Toy.block_fwd Toy.lm_head
           Toy.softmax_row Toy.float_sum
           "ab" "ab" [[[0; 1]]] Toy.world0).
  - reflexivity.
  - exact I.
  - reflexivity.
Defined.

(** The toy softmax scales the row [0, 1] to [0, 100], so the score of
    a text with one position is 100. *)
Example score_probs_on_one_position :
  (score_probs Toy.num_layers Toy.encode Toy.block_fwd Toy.lm_head
     Toy.softmax_row Toy.float_sum "ab" Toy.world0).2 = Ok 100.
Proof. vm_compute. reflexivity. Qed.

(** C9 at the layer list [-1, 0]. *)
Lemma sentinel_among_others_is_last_block_witness :
  resolve_layers Toy.num_layers [(-1)%Z; 0%Z] = [(-1)%Z; 0%Z]
  ∧ ((-1)%Z ∈ [(-1)%Z; 0%Z] →
     Forall (λ layer, (- Z.of_nat Toy.num_layers ≤ layer < Z.of_nat Toy.num_layers)%Z)
            [(-1)%Z; 0%Z] →
     layers_getitem Toy.num_layers (-1) = Ok (Toy.num_layers - 1)
     ∧ ∃ w' hooks handles,
         attach Toy.num_layers (resolve_layers Toy.num_layers [(-1)%Z; 0%Z]) Toy.world0
         = (w', Ok (hooks, handles))
         ∧ length (fwd_hooks w')
           = length (fwd_hooks Toy.world0) + length [(-1)%Z; 0%Z]
         ∧ ∀ j, [(-1)%Z; 0%Z] !! j = Some (-1)%Z →
             fwd_hooks w' !! (length (fwd_hooks Toy.world0) + j)
             = Some (mkEntry (next_id Toy.world0 + j) (Toy.num_layers - 1)
                             (next_hook Toy.world0 + j))).
Proof.
  apply (sentinel_among_others_is_last_block Toy.num_layers
           [(-1)%Z; 0%Z] Toy.world0).
  discriminate.
Defined.

(** C6, the claim as stated fails: 27 statements make two chunks,
    ceil(27/25), but the driver raises in the first iteration, when the
    model has been run on the first 25 statements only; the slice of
    the last two is never taken and nothing is returned to be saved. *)
Lemma driver_never_takes_second_chunk :
  (length (Toy.dataset 27) + 24) `div` 25 = 2
  ∧ ∃ w', toy_main [0%Z; 2%Z] (Toy.dataset 27) (replicate 27 "true")
            (replicate 27 "false") Toy.world0
          = (w', Raise ValueError)
      ∧ forward_log w' = take 25 (Toy.dataset 27)
      ∧ drop 25 (Toy.dataset 27) = ["Z is"; "[ is"].
Proof.
  split; [reflexivity|]. eexists. split; [vm_compute; reflexivity|].
  split; reflexivity.
Qed.

End Examples.

(** ** The further properties on the toy runtime *)

Module Scenarios.

Abbreviation toy_get_acts :=
  (get_acts Toy.num_layers Toy.encode Toy.block_fwd Toy.lm_head).
Abbreviation toy_main_dataset :=
  (main_dataset Toy.num_layers Toy.encode Toy.block_fwd Toy.lm_head
                Toy.softmax_row Toy.float_sum Toy.float_gt).
Abbreviation toy_valid :=
  (λ layer : Z, (- Z.of_nat Toy.num_layers ≤ layer < Z.of_nat Toy.num_layers)%Z).
Abbreviation per_char_evaluate_body :=
  (evaluate_body Toy.num_layers Toy.encode Toy.block_fwd PerChar.lm_head
                 Toy.softmax_row Toy.float_sum Toy.float_gt).
Abbreviation per_char_score_probs :=
  (score_probs Toy.num_layers Toy.encode Toy.block_fwd PerChar.lm_head
               Toy.softmax_row Toy.float_sum).

Lemma world_with_leftover_wf : wf_world world_with_leftover.
Proof. repeat constructor. Qed.

Lemma hook_table_stays_well_formed_witness :
  wf_world (toy_get_acts ["ab"; "boom"] [0%Z; 7%Z] world_with_leftover).1
  ∧ wf_world (evaluate Toy.num_layers Toy.encode Toy.block_fwd Toy.lm_head
                Toy.softmax_row Toy.float_sum Toy.float_gt
                ["ab"; "boom"] ["c"] ["d"] world_with_leftover).1
  ∧ wf_world (toy_main_dataset [(-1)%Z] ["ab"; "boom"] ["c"] ["d"]
                world_with_leftover).1.
Proof.
  apply (hook_table_stays_well_formed Toy.num_layers Toy.encode Toy.block_fwd
           Toy.lm_head Toy.softmax_row Toy.float_sum Toy.float_gt
           [(-1)%Z] [0%Z; 7%Z] ["ab"; "boom"] ["c"] ["d"]
           world_with_leftover).
  exact world_with_leftover_wf.
Defined.

Lemma get_acts_repeated_layer_rows_witness :
  ∃ w' acts, toy_get_acts ["ab"; "cde"] [0%Z; 2%Z; 0%Z] Toy.world0 = (w', Ok acts)
    ∧ dom acts = list_to_set [0%Z; 2%Z; 0%Z]
    ∧ ∀ layer, layer ∈ [0%Z; 2%Z; 0%Z] →
        ∃ t, acts !! layer = Some t
          ∧ length (s_rows t)
            = length ["ab"; "cde"] * occurrences layer [0%Z; 2%Z; 0%Z]
          ∧ ∀ i j statement,
              ["ab"; "cde"] !! i = Some statement →
              j < occurrences layer [0%Z; 2%Z; 0%Z] →
              ∃ input_ids h aux positions others v,
                Toy.encode statement = Ok input_ids
                ∧ Toy.block_fwd (Z.to_nat (layer `mod` Z.of_nat Toy.num_layers))
                                input_ids = Ok (h, aux)
                ∧ h_data h = positions :: others
                ∧ positions !! (length positions - 1) = Some v
                ∧ s_rows t !! (i * occurrences layer [0%Z; 2%Z; 0%Z] + j)
                  = Some v.
Proof.
  apply (get_acts_repeated_layer_rows Toy.num_layers Toy.encode Toy.block_fwd
           Toy.lm_head ["ab"; "cde"] [0%Z; 2%Z; 0%Z] Toy.world0).
  - discriminate.
  - repeat constructor; vm_compute; congruence.
  - repeat constructor.
  - constructor.
Defined.

Lemma get_acts_no_layer_returns_empty_witness :
  ∃ w' ids, toy_get_acts ["ab"; "cde"] [] Toy.world0 = (w', Ok ∅)
    ∧ same_model Toy.world0 w'
    ∧ forward_log w' = forward_log Toy.world0 ++ ids
    ∧ Ok <$> ids = Toy.encode <$> ["ab"; "cde"].
Proof.
  apply (get_acts_no_layer_returns_empty Toy.num_layers Toy.encode Toy.block_fwd
           Toy.lm_head ["ab"; "cde"] Toy.world0).
  repeat constructor.
Defined.

Lemma get_acts_rows_of_concatenation_witness :
  ∃ acts acts_a acts_b,
    (toy_get_acts (["ab"] ++ ["cde"; "f"]) [0%Z; 2%Z] Toy.world0).2 = Ok acts
    ∧ (toy_get_acts ["ab"] [0%Z; 2%Z] Toy.world0).2 = Ok acts_a
    ∧ (toy_get_acts ["cde"; "f"] [0%Z; 2%Z] world_with_leftover).2 = Ok acts_b
    ∧ ∀ layer, layer ∈ [0%Z; 2%Z] →
        ∃ t ta tb, acts !! layer = Some t ∧ acts_a !! layer = Some ta
                   ∧ acts_b !! layer = Some tb
                   ∧ s_rows t = s_rows ta ++ s_rows tb.
Proof.
  apply (get_acts_rows_of_concatenation Toy.num_layers Toy.encode Toy.block_fwd
           Toy.lm_head ["ab"] ["cde"; "f"] [0%Z; 2%Z]
           Toy.world0 Toy.world0 world_with_leftover).
  - discriminate.
  - discriminate.
  - repeat constructor; vm_compute; congruence.
  - repeat constructor.
  - repeat constructor.
  - constructor.
  - constructor.
  - exact world_with_leftover_wf.
Defined.

Lemma get_acts_after_any_earlier_call_witness :
  ∃ acts w2,
    toy_get_acts ["ab"; "cde"] [0%Z; 2%Z]
      (toy_get_acts ["ab"; "boom"] [1%Z] Toy.world0).1 = (w2, Ok acts)
    ∧ (toy_get_acts ["ab"; "cde"] [0%Z; 2%Z] Toy.world0).2 = Ok acts
    ∧ fwd_hooks w2 = fwd_hooks (toy_get_acts ["ab"; "boom"] [1%Z] Toy.world0).1.
Proof.
  apply (get_acts_after_any_earlier_call Toy.num_layers Toy.encode Toy.block_fwd
           Toy.lm_head ["ab"; "boom"] ["ab"; "cde"] [1%Z] [0%Z; 2%Z] Toy.world0).
  - discriminate.
  - repeat constructor; vm_compute; congruence.
  - repeat constructor.
  - constructor.
Defined.

(** The hook the failed batch left is still there after the later one. *)
Example leftover_hook_survives_later_batch :
  hook_count
    (toy_get_acts ["ab"; "cde"] [0%Z; 2%Z]
       (toy_get_acts ["ab"; "boom"] [1%Z] Toy.world0).1).1 = 1.
Proof. vm_compute. reflexivity. Qed.

Lemma get_acts_invalid_layer_raises_witness :
  ∃ w', toy_get_acts ["ab"] ([0%Z; 1%Z] ++ 3%Z :: [2%Z]) Toy.world0
        = (w', Raise IndexError)
    ∧ hook_count w' = hook_count Toy.world0 + length [0%Z; 1%Z]
    ∧ forward_log w' = forward_log Toy.world0.
Proof.
  apply (get_acts_invalid_layer_raises Toy.num_layers Toy.encode Toy.block_fwd
           Toy.lm_head ["ab"] [0%Z; 1%Z] 3%Z [2%Z] Toy.world0).
  - repeat constructor; vm_compute; congruence.
  - unfold Toy.num_layers. lia.
Defined.

Lemma get_acts_on_sentinel_covers_every_block_witness :
  ∃ w' acts,
    toy_get_acts ["ab"; "cde"] (resolve_layers Toy.num_layers [(-1)%Z]) Toy.world0
    = (w', Ok acts)
    ∧ size acts = Toy.num_layers
    ∧ ∀ k, k < Toy.num_layers →
        ∃ t, acts !! Z.of_nat k = Some t
          ∧ length (s_rows t) = length ["ab"; "cde"]
          ∧ ∀ i statement, ["ab"; "cde"] !! i = Some statement →
              ∃ input_ids h aux positions others v,
                Toy.encode statement = Ok input_ids
                ∧ Toy.block_fwd k input_ids = Ok (h, aux)
                ∧ h_data h = positions :: others
                ∧ positions !! (length positions - 1) = Some v
                ∧ s_rows t !! i = Some v.
Proof.
  apply (get_acts_on_sentinel_covers_every_block Toy.num_layers Toy.encode
           Toy.block_fwd Toy.lm_head ["ab"; "cde"] Toy.world0).
  - discriminate.
  - repeat constructor.
  - constructor.
Defined.

Lemma driver_loses_first_chunk_witness :
  ∃ w' ids,
    toy_main_dataset [(-1)%Z] ("The sky is" :: ["2+2="]) ["blue"; "4"]
      ["green"; "5"] Toy.world0
    = (w', Raise (if decide (String.length "The sky is" = 2) then TypeError
                  else ValueError))
    ∧ fwd_hooks w' = fwd_hooks Toy.world0
    ∧ forward_log w' = forward_log Toy.world0 ++ ids
    ∧ Ok <$> ids = Toy.encode <$> take 25 ("The sky is" :: ["2+2="]).
Proof.
  apply (driver_loses_first_chunk Toy.num_layers Toy.encode Toy.block_fwd
           Toy.lm_head Toy.softmax_row Toy.float_sum Toy.float_gt
           [(-1)%Z] "The sky is" ["2+2="] ["blue"; "4"]
           ["green"; "5"] Toy.world0).
  - repeat constructor; vm_compute; congruence.
  - repeat constructor.
  - constructor.
Defined.

Lemma evaluate_body_scores_every_cell_witness :
  ∃ w' ids correct_prob incorrect_probs top,
    per_char_evaluate_body (PInt 0) "ab" ["cdef"; "g"] ["x"; "yz"]
      [LInt 0; LInt 0] Toy.world0
    = (w', Ok (<[0 := LBool (Toy.float_gt correct_prob top)]> [LInt 0; LInt 0]))
    ∧ (∀ w0, (per_char_score_probs ("ab" +:+ " " +:+ "cdef") w0).2 = Ok correct_prob)
    ∧ Forall2 (λ incorrect p,
                 ∀ w0, (per_char_score_probs ("ab" +:+ " " +:+ incorrect) w0).2 = Ok p)
              ["x"; "yz"] incorrect_probs
    ∧ py_max Toy.float_gt incorrect_probs = Ok top
    ∧ same_model Toy.world0 w'
    ∧ forward_log w' = forward_log Toy.world0 ++ ids
    ∧ Ok <$> ids
      = Toy.encode <$> ("ab" +:+ " " +:+ "cdef")
                       :: ((λ incorrect, "ab" +:+ " " +:+ incorrect) <$> ["x"; "yz"]).
Proof.
  apply (evaluate_body_scores_every_cell Toy.num_layers Toy.encode
           Toy.block_fwd PerChar.lm_head Toy.softmax_row Toy.float_sum Toy.float_gt
           0%Z 0 "ab" "cdef" ["cdef"; "g"]
           ["x"; "yz"] [LInt 0; LInt 0] Toy.world0).
  - reflexivity.
  - reflexivity.
  - discriminate.
  - exact I.
  - repeat constructor.
Defined.

(** Seven positions against four and five: the label is true; against
    an incorrect concatenation of the same length it is false. *)
Example label_for_longer_and_equal_answers :
  (per_char_evaluate_body (PInt 0) "ab" ["cdef"; "g"] ["x"; "yz"]
     [LInt 0; LInt 0] Toy.world0).2 = Ok [LBool true; LInt 0]
  ∧ (per_char_evaluate_body (PInt 0) "ab" ["cdef"; "g"] ["x"; "wxyz"]
       [LInt 0; LInt 0] Toy.world0).2 = Ok [LBool false; LInt 0].
Proof. split; vm_compute; reflexivity. Qed.

Lemma evaluate_body_without_incorrect_raises_witness :
  ∃ w', per_char_evaluate_body (PInt (-1)) "ab" ["cdef"; "g"] []
          [LInt 0; LInt 0] Toy.world0
        = (w', Raise ValueError)
    ∧ same_model Toy.world0 w'
    ∧ forward_calls w' = forward_calls Toy.world0 + 1.
Proof.
  apply (evaluate_body_without_incorrect_raises Toy.num_layers Toy.encode
           Toy.block_fwd PerChar.lm_head Toy.softmax_row Toy.float_sum Toy.float_gt
           (-1)%Z "ab" "g" ["cdef"; "g"]
           [LInt 0; LInt 0] Toy.world0).
  - reflexivity.
  - exact I.
Defined.

Example save_path_of_layer_and_offset :
  save_path (save_dir "acts" "13B" "cities") (-1) 25
  = "acts/13B/cities//layer_-1_25.pt".
Proof. vm_compute. reflexivity. Qed.

Lemma save_path_determines_layer_and_offset_witness :
  (-1)%Z = (-1)%Z ∧ 25 = 25.
Proof.
  apply (save_path_determines_layer_and_offset
           (save_dir "acts" "13B" "cities") (-1) (-1) 25 25).
  reflexivity.
Defined.

End Scenarios.
